(** * Shape-level and value-level model of [models/resnet.py]

    The repository defines five residual block classes and six networks on
    top of [torch.nn].  The properties verified are about tensor shapes,
    about which shortcut a constructor installs, and about the value
    computed by one block, so the model has two layers:

    - a shape semantics: a tensor is abstracted to its [torch.Size] (a list
      of integers), a [torch.nn] layer to its hyper-parameters, and a call
      that raises to [None];
    - a value semantics for [ConvNeXtblock] alone (section "Values"), with
      tensors as a shape plus an indexing function over a number type,
      instantiated at IEEE 754 binary32, the dtype of the program's tensors.

    Python integers are [Z]; [//] is [Z.div] and [%] is [Z.modulo] (both
    floor, as in Python). *)

From Stdlib Require Import ZArith List Bool Lia.
From Stdlib Require Import Floats.SpecFloat.
Import ListNotations.
Open Scope Z_scope.

Set Implicit Arguments.

(** ** Exceptions as [option] *)

Definition bind {A B : Type} (m : option A) (f : A -> option B) : option B :=
  match m with
  | Some a => f a
  | None => None
  end.

Notation "x <- m ;; k" := (bind m (fun x => k))
  (at level 61, m at next level, right associativity).

Fixpoint sequence {A : Type} (l : list (option A)) : option (list A) :=
  match l with
  | [] => Some []
  | m :: r => a <- m ;; t <- sequence r ;; Some (a :: t)
  end.

(** ** torch.nn layers used by the file *)

Definition shape := list Z.

#[warnings="-register-all"] Inductive module : Type :=
| Conv2d (in_channels out_channels kernel_size stride padding groups : Z)
         (bias : bool)
| BatchNorm2d (num_features : Z)
| LayerNorm (normalized_shape : Z)
| ReLU
| GELU
| Identity
| AvgPool2d (kernel_size : Z)
| AdaptiveAvgPool2d (out_h out_w : Z)
| Flatten
| Linear (in_features out_features : Z)
| Sequential (mods : list module).

(** Constructors.  [nn.Conv2d] raises [ValueError] unless [groups] is
    positive and divides both channel counts; a negative size makes the
    parameter allocation fail. *)

Definition nn_Conv2d (in_channels out_channels kernel_size stride padding
                      groups : Z) (bias : bool) : option module :=
  if (0 <? groups) && (in_channels mod groups =? 0)
     && (out_channels mod groups =? 0)
     && (0 <=? in_channels) && (0 <=? out_channels)
  then Some (Conv2d in_channels out_channels kernel_size stride padding
                    groups bias)
  else None.

Definition nn_BatchNorm2d (num_features : Z) : option module :=
  if 0 <=? num_features then Some (BatchNorm2d num_features) else None.

Definition nn_LayerNorm (normalized_shape : Z) : option module :=
  if 0 <=? normalized_shape then Some (LayerNorm normalized_shape) else None.

Definition nn_Linear (in_features out_features : Z) : option module :=
  if (0 <=? in_features) && (0 <=? out_features)
  then Some (Linear in_features out_features) else None.

Definition nn_Sequential (mods : list (option module)) : option module :=
  l <- sequence mods ;; Some (Sequential l).

(** Output length of a convolution or pooling window along one axis. *)

Definition conv_out (h kernel_size stride padding : Z) : Z :=
  (h + 2 * padding - kernel_size) / stride + 1.

(** [nn.Conv2d.forward] on a batched image.  The constructor accepts a
    channel count of 0, the convolution itself does not: with no input or
    no output channel the call raises. *)

Definition Conv2d_forward (in_channels out_channels kernel_size stride
                           padding : Z) (x : shape) : option shape :=
  match x with
  | [n; c; h; w] =>
      if (c =? in_channels)
         && (0 <? in_channels) && (0 <? out_channels) && (0 <? stride)
         && (kernel_size <=? h + 2 * padding)
         && (kernel_size <=? w + 2 * padding)
      then Some [n; out_channels;
                 conv_out h kernel_size stride padding;
                 conv_out w kernel_size stride padding]
      else None
  | _ => None
  end.

(** [F.batch_norm] in training mode first runs [_verify_batch_size], which
    raises when there is a single value per channel. *)

Definition BatchNorm2d_forward (training : bool) (num_features : Z)
                               (x : shape) : option shape :=
  match x with
  | [n; c; h; w] =>
      if c =? num_features
      then if training
           then if n * h * w =? 1 then None else Some x
           else Some x
      else None
  | _ => None
  end.

Definition LayerNorm_forward (normalized_shape : Z) (x : shape)
  : option shape :=
  match rev x with
  | c :: _ => if c =? normalized_shape then Some x else None
  | [] => None
  end.

Definition AvgPool2d_forward (kernel_size : Z) (x : shape) : option shape :=
  match x with
  | [n; c; h; w] =>
      if (0 <? kernel_size) && (kernel_size <=? h) && (kernel_size <=? w)
      then Some [n; c; conv_out h kernel_size kernel_size 0;
                 conv_out w kernel_size kernel_size 0]
      else None
  | _ => None
  end.

Definition AdaptiveAvgPool2d_forward (out_h out_w : Z) (x : shape)
  : option shape :=
  match x with
  | [n; c; h; w] =>
      if (0 <? c) && (0 <? h) && (0 <? w) then Some [n; c; out_h; out_w]
      else None
  | _ => None
  end.

Definition numel (dims : list Z) : Z := fold_right Z.mul 1 dims.

(** [nn.Flatten()] flattens from dimension 1 on. *)

Definition Flatten_forward (x : shape) : option shape :=
  match x with
  | n :: d :: rest => Some [n; numel (d :: rest)]
  | _ => None
  end.

Definition Linear_forward (in_features out_features : Z) (x : shape)
  : option shape :=
  match rev x with
  | c :: r =>
      if c =? in_features then Some (rev (out_features :: r)) else None
  | [] => None
  end.

(** Running a list of callables in order, as [nn.Sequential.forward]. *)

Definition run_list {A : Type} (f : A -> shape -> option shape)
  : list A -> shape -> option shape :=
  fix run (l : list A) (x : shape) {struct l} : option shape :=
    match l with
    | [] => Some x
    | a :: r => y <- f a x ;; run r y
    end.

Fixpoint module_forward (training : bool) (m : module) (x : shape)
  {struct m} : option shape :=
  match m with
  | Conv2d i o k s p _ _ => Conv2d_forward i o k s p x
  | BatchNorm2d c => BatchNorm2d_forward training c x
  | LayerNorm c => LayerNorm_forward c x
  | ReLU | GELU | Identity => Some x
  | AvgPool2d k => AvgPool2d_forward k x
  | AdaptiveAvgPool2d oh ow => AdaptiveAvgPool2d_forward oh ow x
  | Flatten => Flatten_forward x
  | Linear i o => Linear_forward i o x
  | Sequential mods => run_list (module_forward training) mods x
  end.

(** Tensor operations used outside layers. *)

(** [a + b]: shapes are aligned from the last axis; two lengths are
    compatible when equal or when one of them is 1. *)

Fixpoint broadcast_rev (a b : list Z) : option (list Z) :=
  match a, b with
  | [], _ => Some b
  | _, [] => Some a
  | x :: a', y :: b' =>
      r <- broadcast_rev a' b' ;;
      if x =? y then Some (x :: r)
      else if x =? 1 then Some (y :: r)
      else if y =? 1 then Some (x :: r)
      else None
  end.

Definition tensor_add (a b : shape) : option shape :=
  r <- broadcast_rev (rev a) (rev b) ;; Some (rev r).

(** [F.relu(x)] *)

Definition F_relu (x : shape) : option shape := Some x.

(** [x[:, :, ::step, ::step]] *)

Definition slice_len (h step : Z) : Z := (h + step - 1) / step.

Definition strided_slice (step : Z) (x : shape) : option shape :=
  match x with
  | n :: c :: h :: w :: rest =>
      if 0 <? step
      then Some (n :: c :: slice_len h step :: slice_len w step :: rest)
      else None
  | _ => None
  end.

(** [torch.concat((x, torch.zeros_like(x)), dim=1)] *)

Definition concat_zeros_like (x : shape) : option shape :=
  match x with
  | n :: c :: rest => Some (n :: (c + c) :: rest)
  | _ => None
  end.

(** [x.permute(0, 2, 3, 1)] and [x.permute(0, 3, 1, 2)] *)

Definition permute_0231 (x : shape) : option shape :=
  match x with
  | [n; c; h; w] => Some [n; h; w; c]
  | _ => None
  end.

Definition permute_0312 (x : shape) : option shape :=
  match x with
  | [n; h; w; c] => Some [n; c; h; w]
  | _ => None
  end.

(** Python's [for _ in range(k): x = f(x)]. *)

Fixpoint for_range (k : nat) (f : shape -> option shape) (x : shape)
  : option shape :=
  match k with
  | O => Some x
  | S k' => y <- f x ;; for_range k' f y
  end.

(** ** ResBlock *)

Record ResBlock : Type := {
  rb_is_downsample : bool;
  rb_seq : module;
  rb_downsample : module
}.

Definition ResBlock_init (in_channel out_channel : Z) (is_downsample : bool)
  : option ResBlock :=
  let stride := if is_downsample then 2 else 1 in
  seq <- nn_Sequential
    [ nn_Conv2d in_channel out_channel 3 stride 1 1 false;
      nn_BatchNorm2d out_channel;
      Some ReLU;
      nn_Conv2d out_channel out_channel 3 1 1 1 false;
      nn_BatchNorm2d out_channel ] ;;
  downsample <-
    (if is_downsample
     then nn_Sequential
            [ nn_Conv2d in_channel out_channel 1 stride 0 1 false;
              nn_BatchNorm2d out_channel ]
     else Some Identity) ;;
  Some {| rb_is_downsample := is_downsample;
          rb_seq := seq;
          rb_downsample := downsample |}.

Definition ResBlock_forward (training : bool) (self : ResBlock) (x : shape)
  : option shape :=
  a <- module_forward training (rb_seq self) x ;;
  b <- module_forward training (rb_downsample self) x ;;
  s <- tensor_add a b ;;
  F_relu s.

(** ** ResBottleNeckBlock *)

(** What [self.downsample] is bound to in the two classes that carry an
    [_identitymap] method. *)

Inductive downsample_fn : Type :=
| Bound_identitymap
| Module_fn (m : module).

Record ResBottleNeckBlock : Type := {
  bb_stride : Z;
  bb_in_channel : Z;
  bb_out_channel : Z;
  bb_seq : module;
  bb_downsample : downsample_fn
}.

Definition ResBottleNeckBlock_init (in_channel out_channel : Z)
  (is_downsample : bool) (stride : option Z) : option ResBottleNeckBlock :=
  let self_stride :=
    match stride with
    | None => if is_downsample then 2 else 1
    | Some s => s
    end in
  let mid_channel := out_channel / 4 in
  seq <- nn_Sequential
    [ nn_Conv2d in_channel mid_channel 1 1 0 1 false;
      nn_BatchNorm2d mid_channel;
      Some ReLU;
      nn_Conv2d mid_channel mid_channel 3 self_stride 1 1 false;
      nn_BatchNorm2d mid_channel;
      Some ReLU;
      nn_Conv2d mid_channel out_channel 1 1 0 1 false;
      nn_BatchNorm2d out_channel ] ;;
  Some {| bb_stride := self_stride;
          bb_in_channel := in_channel;
          bb_out_channel := out_channel;
          bb_seq := seq;
          bb_downsample :=
            if is_downsample then Bound_identitymap
            else Module_fn Identity |}.

Definition ResBottleNeckBlock_identitymap (self : ResBottleNeckBlock)
  (x : shape) : option shape :=
  x1 <- strided_slice (bb_stride self) x ;;
  if bb_in_channel self =? 0 then None
  else
    let dim := bb_out_channel self / bb_in_channel self in
    for_range (Z.to_nat (dim / 2)) concat_zeros_like x1.

Definition ResBottleNeckBlock_downsample (training : bool)
  (self : ResBottleNeckBlock) (x : shape) : option shape :=
  match bb_downsample self with
  | Bound_identitymap => ResBottleNeckBlock_identitymap self x
  | Module_fn m => module_forward training m x
  end.

Definition ResBottleNeckBlock_forward (training : bool)
  (self : ResBottleNeckBlock) (x : shape) : option shape :=
  a <- module_forward training (bb_seq self) x ;;
  b <- ResBottleNeckBlock_downsample training self x ;;
  s <- tensor_add a b ;;
  F_relu s.

(** ** PreActResBlock *)

Record PreActResBlock : Type := {
  pa_seq : module;
  pa_downsample : downsample_fn
}.

Definition PreActResBlock_init (in_channel out_channel : Z)
  (is_downsample : bool) : option PreActResBlock :=
  let stride := if is_downsample then 2 else 1 in
  seq <- nn_Sequential
    [ nn_BatchNorm2d in_channel;
      Some ReLU;
      nn_Conv2d in_channel out_channel 3 stride 1 1 false;
      nn_BatchNorm2d out_channel;
      Some ReLU;
      nn_Conv2d out_channel out_channel 3 1 1 1 false ] ;;
  Some {| pa_seq := seq;
          pa_downsample :=
            if is_downsample then Bound_identitymap
            else Module_fn Identity |}.

Definition PreActResBlock_identitymap (x : shape) : option shape :=
  x1 <- strided_slice 2 x ;;
  concat_zeros_like x1.

Definition PreActResBlock_downsample (training : bool)
  (self : PreActResBlock) (x : shape) : option shape :=
  match pa_downsample self with
  | Bound_identitymap => PreActResBlock_identitymap x
  | Module_fn m => module_forward training m x
  end.

Definition PreActResBlock_forward (training : bool) (self : PreActResBlock)
  (x : shape) : option shape :=
  a <- module_forward training (pa_seq self) x ;;
  b <- PreActResBlock_downsample training self x ;;
  tensor_add a b.

(** ** ResNextBlock *)

Record ResNextBlock : Type := {
  rn_seq : module;
  rn_downsample : module
}.

Definition ResNextBlock_init (in_channel inner_channel out_channel
  cardinality : Z) (is_downsample : bool) (stride : option Z)
  : option ResNextBlock :=
  let stride :=
    match stride with
    | None => if is_downsample then 2 else 1
    | Some s => s
    end in
  seq <- nn_Sequential
    [ nn_Conv2d in_channel inner_channel 1 1 0 1 false;
      nn_BatchNorm2d inner_channel;
      Some ReLU;
      nn_Conv2d inner_channel inner_channel 3 stride 1 cardinality false;
      nn_BatchNorm2d inner_channel;
      Some ReLU;
      nn_Conv2d inner_channel out_channel 1 1 0 1 false;
      nn_BatchNorm2d out_channel ] ;;
  downsample <-
    (if is_downsample
     then nn_Sequential
            [ nn_Conv2d in_channel out_channel 1 stride 0 1 false;
              nn_BatchNorm2d out_channel ]
     else Some Identity) ;;
  Some {| rn_seq := seq; rn_downsample := downsample |}.

Definition ResNextBlock_forward (training : bool) (self : ResNextBlock)
  (x : shape) : option shape :=
  a <- module_forward training (rn_seq self) x ;;
  b <- module_forward training (rn_downsample self) x ;;
  s <- tensor_add a b ;;
  F_relu s.

(** ** ConvNeXtblock (shapes; the values are in section Values) *)

Record ConvNeXtblock : Type := {
  cn_depth_wise : module;
  cn_norm : module;
  cn_point_wise1 : module;
  cn_gelu : module;
  cn_point_wise2 : module
}.

Definition ConvNeXtblock_init (channel : Z) : option ConvNeXtblock :=
  depth_wise <- nn_Conv2d channel channel 7 1 3 channel true ;;
  norm <- nn_LayerNorm channel ;;
  point_wise1 <- nn_Conv2d channel (channel * 4) 1 1 0 1 true ;;
  point_wise2 <- nn_Conv2d (channel * 4) channel 1 1 0 1 true ;;
  Some {| cn_depth_wise := depth_wise;
          cn_norm := norm;
          cn_point_wise1 := point_wise1;
          cn_gelu := GELU;
          cn_point_wise2 := point_wise2 |}.

(** The main path: everything [forward] does before [x + residual]. *)

Definition ConvNeXtblock_main (training : bool) (self : ConvNeXtblock)
  (x : shape) : option shape :=
  x1 <- module_forward training (cn_depth_wise self) x ;;
  x2 <- permute_0231 x1 ;;
  x3 <- module_forward training (cn_norm self) x2 ;;
  x4 <- permute_0312 x3 ;;
  x5 <- module_forward training (cn_point_wise1 self) x4 ;;
  x6 <- module_forward training (cn_gelu self) x5 ;;
  module_forward training (cn_point_wise2 self) x6.

Definition ConvNeXtblock_forward (training : bool) (self : ConvNeXtblock)
  (x : shape) : option shape :=
  let residual := x in
  y <- ConvNeXtblock_main training self x ;;
  tensor_add y residual.

(** ** Networks *)

(** An element of a network's [nn.Sequential]: a plain torch layer or an
    instance of one of the five block classes. *)

Inductive layer : Type :=
| Prim (m : module)
| LResBlock (b : ResBlock)
| LResBottleNeckBlock (b : ResBottleNeckBlock)
| LPreActResBlock (b : PreActResBlock)
| LResNextBlock (b : ResNextBlock)
| LConvNeXtblock (b : ConvNeXtblock).

Definition layer_forward (training : bool) (l : layer) (x : shape)
  : option shape :=
  match l with
  | Prim m => module_forward training m x
  | LResBlock b => ResBlock_forward training b x
  | LResBottleNeckBlock b => ResBottleNeckBlock_forward training b x
  | LPreActResBlock b => PreActResBlock_forward training b x
  | LResNextBlock b => ResNextBlock_forward training b x
  | LConvNeXtblock b => ConvNeXtblock_forward training b x
  end.

(** The six network classes have the same three attributes and the same
    [forward] and [extract_features] bodies; one record serves them all. *)

Record Network : Type := {
  net_seq : list layer;
  net_flat : module;
  net_out : module
}.

Definition extract_features (training : bool) (self : Network) (x : shape)
  : option shape :=
  y <- run_list (layer_forward training) (net_seq self) x ;;
  module_forward training (net_flat self) y.

Definition forward (training : bool) (self : Network) (x : shape)
  : option shape :=
  y <- run_list (layer_forward training) (net_seq self) x ;;
  f <- module_forward training (net_flat self) y ;;
  module_forward training (net_out self) f.

(** Constructor calls as they appear inside the networks' [__init__]. *)

Definition prim (m : option module) : option layer :=
  a <- m ;; Some (Prim a).

Definition new_ResBlock (i o : Z) (is_downsample : bool) : option layer :=
  b <- ResBlock_init i o is_downsample ;; Some (LResBlock b).

Definition new_ResBottleNeckBlock (i o : Z) (is_downsample : bool)
  (stride : option Z) : option layer :=
  b <- ResBottleNeckBlock_init i o is_downsample stride ;;
  Some (LResBottleNeckBlock b).

Definition new_PreActResBlock (i o : Z) (is_downsample : bool)
  : option layer :=
  b <- PreActResBlock_init i o is_downsample ;; Some (LPreActResBlock b).

Definition new_ResNextBlock (i inner o : Z) (is_downsample : bool)
  (stride : option Z) : option layer :=
  b <- ResNextBlock_init i inner o 32 is_downsample stride ;;
  Some (LResNextBlock b).

Definition new_ConvNeXtblock (channel : Z) : option layer :=
  b <- ConvNeXtblock_init channel ;; Some (LConvNeXtblock b).

Definition new_Network (seq : list (option layer)) (out : option module)
  : option Network :=
  s <- sequence seq ;;
  o <- out ;;
  Some {| net_seq := s; net_flat := Flatten; net_out := o |}.

Definition Resnet18_layers : list (option layer) :=
  [ prim (nn_Conv2d 3 64 3 1 1 1 false);
    prim (nn_BatchNorm2d 64);
    prim (Some ReLU);
    new_ResBlock 64 64 false;
    new_ResBlock 64 64 false;
    new_ResBlock 64 128 true;
    new_ResBlock 128 128 false;
    new_ResBlock 128 256 true;
    new_ResBlock 256 256 false;
    new_ResBlock 256 512 true;
    new_ResBlock 512 512 false;
    prim (Some (AdaptiveAvgPool2d 1 1)) ].

Definition Resnet18 (class_num : Z) : option Network :=
  new_Network Resnet18_layers (nn_Linear 512 class_num).

Definition ResBottleNecknet18_layers : list (option layer) :=
  [ prim (nn_Conv2d 3 64 3 1 1 1 false);
    prim (nn_BatchNorm2d 64);
    prim (Some ReLU);
    new_ResBottleNeckBlock 64 256 true (Some 1);
    new_ResBottleNeckBlock 256 256 false None;
    new_ResBottleNeckBlock 256 512 true None;
    new_ResBottleNeckBlock 512 512 false None;
    new_ResBottleNeckBlock 512 1024 true None;
    new_ResBottleNeckBlock 1024 1024 false None;
    new_ResBottleNeckBlock 1024 2048 true None;
    new_ResBottleNeckBlock 2048 2048 false None;
    prim (Some (AvgPool2d 4)) ].

Definition ResBottleNecknet18 (class_num : Z) : option Network :=
  new_Network ResBottleNecknet18_layers (nn_Linear 2048 class_num).

Definition ResBottleNecknet50_layers : list (option layer) :=
  [ prim (nn_Conv2d 3 64 3 1 1 1 false);
    prim (nn_BatchNorm2d 64);
    prim (Some ReLU);
    new_ResBottleNeckBlock 64 256 true (Some 1);
    new_ResBottleNeckBlock 256 256 false None;
    new_ResBottleNeckBlock 256 256 false None;
    new_ResBottleNeckBlock 256 512 true None;
    new_ResBottleNeckBlock 512 512 false None;
    new_ResBottleNeckBlock 512 512 false None;
    new_ResBottleNeckBlock 512 512 false None;
    new_ResBottleNeckBlock 512 1024 true None;
    new_ResBottleNeckBlock 1024 1024 false None;
    new_ResBottleNeckBlock 1024 1024 false None;
    new_ResBottleNeckBlock 1024 1024 false None;
    new_ResBottleNeckBlock 1024 1024 false None;
    new_ResBottleNeckBlock 1024 1024 false None;
    new_ResBottleNeckBlock 1024 2048 true None;
    new_ResBottleNeckBlock 2048 2048 false None;
    new_ResBottleNeckBlock 2048 2048 false None;
    prim (Some (AvgPool2d 4)) ].

Definition ResBottleNecknet50 (class_num : Z) : option Network :=
  new_Network ResBottleNecknet50_layers (nn_Linear 2048 class_num).

Definition PreActResNet_layers : list (option layer) :=
  [ prim (nn_Conv2d 3 64 3 1 1 1 false);
    prim (Some ReLU);
    new_PreActResBlock 64 64 false;
    new_PreActResBlock 64 64 false;
    new_PreActResBlock 64 128 true;
    new_PreActResBlock 128 128 false;
    new_PreActResBlock 128 256 true;
    new_PreActResBlock 256 256 false;
    new_PreActResBlock 256 512 true;
    new_PreActResBlock 512 512 false;
    prim (Some ReLU);
    prim (Some (AvgPool2d 4)) ].

Definition PreActResNet (class_num : Z) : option Network :=
  new_Network PreActResNet_layers (nn_Linear 512 class_num).

Definition ResNext_layers : list (option layer) :=
  [ prim (nn_Conv2d 3 64 3 1 1 1 false);
    prim (nn_BatchNorm2d 64);
    prim (Some ReLU);
    new_ResNextBlock 64 128 256 true (Some 1);
    new_ResNextBlock 256 128 256 false None;
    new_ResNextBlock 256 256 512 true None;
    new_ResNextBlock 512 256 512 false None;
    new_ResNextBlock 512 512 1024 true None;
    new_ResNextBlock 1024 512 1024 false None;
    new_ResNextBlock 1024 1024 2048 true None;
    new_ResNextBlock 2048 1024 2048 false None;
    prim (Some (AvgPool2d 4)) ].

Definition ResNext (class_num : Z) : option Network :=
  new_Network ResNext_layers (nn_Linear 2048 class_num).

Definition ConvNeXt_layers : list (option layer) :=
  [ prim (nn_Conv2d 3 96 2 2 0 1 false);
    new_ConvNeXtblock 96;
    new_ConvNeXtblock 96;
    prim (nn_Conv2d 96 192 2 2 0 1 true);
    new_ConvNeXtblock 192;
    new_ConvNeXtblock 192;
    prim (nn_Conv2d 192 384 2 2 0 1 true);
    new_ConvNeXtblock 384;
    new_ConvNeXtblock 384;
    new_ConvNeXtblock 384;
    new_ConvNeXtblock 384;
    new_ConvNeXtblock 384;
    new_ConvNeXtblock 384;
    prim (nn_Conv2d 384 768 2 2 0 1 true);
    new_ConvNeXtblock 768;
    new_ConvNeXtblock 768;
    prim (Some (AvgPool2d 2)) ].

Definition ConvNeXt (class_num : Z) : option Network :=
  new_Network ConvNeXt_layers (nn_Linear 768 class_num).

(** The six classes, in the order the specification lists them. *)

Definition networks : list (Z -> option Network) :=
  [ Resnet18; ResBottleNecknet18; ResBottleNecknet50;
    PreActResNet; ResNext; ConvNeXt ].

(** ** The two operands of a block's residual sum *)

Definition block_main (training : bool) (l : layer) (x : shape)
  : option shape :=
  match l with
  | Prim _ => None
  | LResBlock b => module_forward training (rb_seq b) x
  | LResBottleNeckBlock b => module_forward training (bb_seq b) x
  | LPreActResBlock b => module_forward training (pa_seq b) x
  | LResNextBlock b => module_forward training (rn_seq b) x
  | LConvNeXtblock b => ConvNeXtblock_main training b x
  end.

Definition block_shortcut (training : bool) (l : layer) (x : shape)
  : option shape :=
  match l with
  | Prim _ => None
  | LResBlock b => module_forward training (rb_downsample b) x
  | LResBottleNeckBlock b => ResBottleNeckBlock_downsample training b x
  | LPreActResBlock b => PreActResBlock_downsample training b x
  | LResNextBlock b => module_forward training (rn_downsample b) x
  | LConvNeXtblock b => Some x
  end.

Definition is_block (l : layer) : bool :=
  match l with
  | Prim _ => false
  | _ => true
  end.

(** Whether a block was built with [is_downsample=True].  [ResBlock] stores
    the flag; in the other classes it decides [self.downsample], from which
    it is read back.  [ConvNeXtblock] has no such parameter. *)

Definition flagged_downsample (l : layer) : bool :=
  match l with
  | Prim _ => false
  | LResBlock b => rb_is_downsample b
  | LResBottleNeckBlock b =>
      match bb_downsample b with
      | Bound_identitymap => true
      | Module_fn _ => false
      end
  | LPreActResBlock b =>
      match pa_downsample b with
      | Bound_identitymap => true
      | Module_fn _ => false
      end
  | LResNextBlock b =>
      match rn_downsample b with
      | Identity => false
      | _ => true
      end
  | LConvNeXtblock _ => false
  end.

(** Total stride of the convolutions of a module. *)

Fixpoint module_stride (m : module) : Z :=
  match m with
  | Conv2d _ _ _ s _ _ _ => s
  | Sequential mods => fold_right (fun m' acc => module_stride m' * acc) 1 mods
  | _ => 1
  end.


(** The layers a run goes through, each with the shape it receives; the
    run stops at the first layer that raises. *)

Fixpoint trace (training : bool) (ls : list layer) (x : shape)
  : list (layer * shape) :=
  match ls with
  | [] => []
  | l :: r =>
      (l, x) :: match layer_forward training l x with
                | Some y => trace training r y
                | None => []
                end
  end.

Definition channels (x : shape) : Z := nth 1 x 0.
Definition height (x : shape) : Z := nth 2 x 0.
Definition width (x : shape) : Z := nth 3 x 0.

(** ** Values: [ConvNeXtblock] on tensors of numbers

    Tensor entries live in a number type [R] given by its operations.  A
    4-D tensor is its shape together with an indexing function (only read
    inside the shape).  Shapes are computed by the shape semantics above, so
    a value-level call raises exactly when the shape-level call does. *)

Class Num (R : Type) : Type := {
  zero : R;
  one : R;
  add : R -> R -> R;
  sub : R -> R -> R;
  mul : R -> R -> R;
  div : R -> R -> R;
  sqrt : R -> R;
  erf : R -> R;
  of_Z : Z -> R;
  layer_norm_eps : R
}.

Section Values.

Context {R : Type} `{Num R}.

Record tensor : Type := {
  t_shape : shape;
  t_at : Z -> Z -> Z -> Z -> R
}.

Definition in_range (s : shape) (n c h w : Z) : Prop :=
  0 <= n < nth 0 s 0 /\ 0 <= c < nth 1 s 0 /\
  0 <= h < nth 2 s 0 /\ 0 <= w < nth 3 s 0.

Definition range (k : Z) : list Z := map Z.of_nat (seq 0 (Z.to_nat k)).

(** [.all()] of a boolean tensor of shape [s]. *)

Definition all_indices (s : shape) (P : Z -> Z -> Z -> Z -> bool) : bool :=
  forallb (fun n =>
    forallb (fun c =>
      forallb (fun h =>
        forallb (fun w => P n c h w) (range (nth 3 s 0)))
        (range (nth 2 s 0)))
      (range (nth 1 s 0)))
    (range (nth 0 s 0)).

Definition tensor_all (P : R -> bool) (x : tensor) : bool :=
  all_indices (t_shape x) (fun n c h w => P (t_at x n c h w)).

Definition sum_over (k : Z) (f : Z -> R) : R :=
  fold_right (fun i acc => add (f i) acc) zero (range k).

(** Parameters of a convolution: weight [out, in/groups, kh, kw], bias. *)

Record conv_params : Type := {
  cp_weight : Z -> Z -> Z -> Z -> R;
  cp_bias : option (Z -> R)
}.

(** Entry of the zero-padded input. *)

Definition read_padded (x : tensor) (n c i j : Z) : R :=
  if (0 <=? i) && (i <? height (t_shape x))
     && (0 <=? j) && (j <? width (t_shape x))
  then t_at x n c i j
  else zero.

Definition conv2d_value (m : module) (p : conv_params) (x : tensor)
  : option tensor :=
  match m with
  | Conv2d i o k s pad g _ =>
      sh <- Conv2d_forward i o k s pad (t_shape x) ;;
      Some {| t_shape := sh;
              t_at := fun n oc y z =>
                let cin_g := i / g in
                let grp := oc / (o / g) in
                let acc :=
                  sum_over cin_g (fun c =>
                    sum_over k (fun di =>
                      sum_over k (fun dj =>
                        mul (cp_weight p oc c di dj)
                            (read_padded x n (grp * cin_g + c)
                               (y * s + di - pad) (z * s + dj - pad))))) in
                match cp_bias p with
                | Some b => add acc (b oc)
                | None => acc
                end |}
  | _ => None
  end.

Definition permute_0231_value (x : tensor) : option tensor :=
  sh <- permute_0231 (t_shape x) ;;
  Some {| t_shape := sh; t_at := fun n h w c => t_at x n c h w |}.

Definition permute_0312_value (x : tensor) : option tensor :=
  sh <- permute_0312 (t_shape x) ;;
  Some {| t_shape := sh; t_at := fun n c h w => t_at x n h w c |}.

(** [nn.LayerNorm(c)] on a channel-last tensor: statistics over the last
    axis, then the element-wise affine map. *)

Definition layer_norm_value (m : module) (weight bias : Z -> R) (x : tensor)
  : option tensor :=
  match m with
  | LayerNorm c =>
      sh <- LayerNorm_forward c (t_shape x) ;;
      Some {| t_shape := sh;
              t_at := fun n h w k =>
                let mean := div (sum_over c (t_at x n h w)) (of_Z c) in
                let var :=
                  div (sum_over c (fun j =>
                         mul (sub (t_at x n h w j) mean)
                             (sub (t_at x n h w j) mean))) (of_Z c) in
                add (mul (div (sub (t_at x n h w k) mean)
                              (sqrt (add var layer_norm_eps)))
                         (weight k))
                    (bias k) |}
  | _ => None
  end.

(** [nn.GELU()]: x * Phi(x), with Phi written with [erf]. *)

Definition gelu (v : R) : R :=
  mul (mul (div one (of_Z 2)) v)
      (add one (erf (div v (sqrt (of_Z 2))))).

Definition gelu_value (x : tensor) : option tensor :=
  Some {| t_shape := t_shape x;
          t_at := fun n c h w => gelu (t_at x n c h w) |}.

(** [a + b] with broadcasting: an axis of length 1 is read at index 0. *)

Definition bidx (s : shape) (axis : nat) (i : Z) : Z :=
  if nth axis s 0 =? 1 then 0 else i.

Definition tensor_add_value (a b : tensor) : option tensor :=
  sh <- tensor_add (t_shape a) (t_shape b) ;;
  let rd (t : tensor) n c h w :=
    t_at t (bidx (t_shape t) 0 n) (bidx (t_shape t) 1 c)
           (bidx (t_shape t) 2 h) (bidx (t_shape t) 3 w) in
  Some {| t_shape := sh;
          t_at := fun n c h w => add (rd a n c h w) (rd b n c h w) |}.

(** The learnable state of a [ConvNeXtblock]. *)

Record ConvNeXtblock_params : Type := {
  depth_wise_p : conv_params;
  norm_weight : Z -> R;
  norm_bias : Z -> R;
  point_wise1_p : conv_params;
  point_wise2_p : conv_params
}.

(** [nn.init.zeros_] on the weight, and on the bias when there is one. *)

Definition zeros_ (p : conv_params) : conv_params :=
  {| cp_weight := fun _ _ _ _ => zero;
     cp_bias := match cp_bias p with
                | Some _ => Some (fun _ => zero)
                | None => None
                end |}.

(** [ConvNeXtblock.__init__].  [draw] stands for what the default
    initialisers of the three convolutions produce (random numbers); the
    constructor keeps them for [depth_wise] and [point_wise1], sets the
    normalisation to its defaults and zeroes [point_wise2]. *)

Definition ConvNeXtblock_new (channel : Z)
  (draw_depth_wise draw_point_wise1 draw_point_wise2 : Z -> Z -> Z -> Z -> R)
  (draw_bias_dw draw_bias_pw1 draw_bias_pw2 : Z -> R)
  : option (ConvNeXtblock * ConvNeXtblock_params) :=
  hyper <- ConvNeXtblock_init channel ;;
  let point_wise2 :=
    {| cp_weight := draw_point_wise2; cp_bias := Some draw_bias_pw2 |} in
  Some (hyper,
        {| depth_wise_p :=
             {| cp_weight := draw_depth_wise; cp_bias := Some draw_bias_dw |};
           norm_weight := fun _ => one;
           norm_bias := fun _ => zero;
           point_wise1_p :=
             {| cp_weight := draw_point_wise1;
                cp_bias := Some draw_bias_pw1 |};
           point_wise2_p := zeros_ point_wise2 |}).

Definition ConvNeXtblock_forward_value
  (self : ConvNeXtblock * ConvNeXtblock_params) (x : tensor)
  : option tensor :=
  let '(m, p) := self in
  let residual := x in
  x1 <- conv2d_value (cn_depth_wise m) (depth_wise_p p) x ;;
  x2 <- permute_0231_value x1 ;;
  x3 <- layer_norm_value (cn_norm m) (norm_weight p) (norm_bias p) x2 ;;
  x4 <- permute_0312_value x3 ;;
  x5 <- conv2d_value (cn_point_wise1 m) (point_wise1_p p) x4 ;;
  x6 <- gelu_value x5 ;;
  x7 <- conv2d_value (cn_point_wise2 m) (point_wise2_p p) x6 ;;
  tensor_add_value x7 residual.

(** The activation that [forward] hands to [point_wise2]: the value of [x]
    after [self.gelu]. *)

Definition ConvNeXtblock_hidden_value
  (self : ConvNeXtblock * ConvNeXtblock_params) (x : tensor)
  : option tensor :=
  let '(m, p) := self in
  x1 <- conv2d_value (cn_depth_wise m) (depth_wise_p p) x ;;
  x2 <- permute_0231_value x1 ;;
  x3 <- layer_norm_value (cn_norm m) (norm_weight p) (norm_bias p) x2 ;;
  x4 <- permute_0312_value x3 ;;
  x5 <- conv2d_value (cn_point_wise1 m) (point_wise1_p p) x4 ;;
  gelu_value x5.

End Values.

Arguments tensor R : clear implicits.
Arguments conv_params R : clear implicits.
Arguments ConvNeXtblock_params R : clear implicits.

(** ** float32, the number type of the program's tensors

    torch's default dtype is IEEE 754 binary32: 24 bits of precision,
    exponents up to 2^128, round to nearest even, with signed zeros,
    infinities and NaN.  [erf] is left to the caller: the statements below
    hold for every implementation of it. *)

Definition float32 : Type := spec_float.

Definition prec32 : Z := 24.
Definition emax32 : Z := 128.

Definition f32_of_Z (z : Z) : float32 :=
  binary_normalize prec32 emax32 z 0 false.

(** The float32 nearest to [a / b], for integers that are float32. *)

Definition f32_quot (a b : Z) : float32 :=
  SFdiv prec32 emax32 (f32_of_Z a) (f32_of_Z b).

Definition float32_Num (erf32 : float32 -> float32) : Num float32 := {|
  zero := S754_zero false;
  one := f32_of_Z 1;
  add := SFadd prec32 emax32;
  sub := SFsub prec32 emax32;
  mul := SFmul prec32 emax32;
  div := SFdiv prec32 emax32;
  sqrt := SFsqrt prec32 emax32;
  erf := erf32;
  of_Z := f32_of_Z;
  layer_norm_eps := f32_quot 1 100000
|}.

(** [torch.isfinite], [torch.isnan] and the sign-blind test for zero. *)

Definition isfinite (v : float32) : bool :=
  match v with
  | S754_zero _ | S754_finite _ _ _ => true
  | S754_infinity _ | S754_nan => false
  end.

Definition isnan (v : float32) : bool :=
  match v with
  | S754_nan => true
  | _ => false
  end.

Definition notnan (v : float32) : bool := negb (isnan v).

Definition iszero (v : float32) : bool :=
  match v with
  | S754_zero _ => true
  | _ => false
  end.

Definition shape_eqb (a b : shape) : bool :=
  if list_eq_dec Z.eq_dec a b then true else false.

(** [torch.equal a b]: same shape, and [a == b] at every index, with the
    IEEE comparison ([-0 == +0], and NaN differs from everything). *)

Definition torch_equal (a b : tensor float32) : bool :=
  shape_eqb (t_shape a) (t_shape b)
  && all_indices (t_shape a)
       (fun n c h w => SFeqb (t_at a n c h w) (t_at b n c h w)).

(** An [erf] to run the semantics on concrete tensors (Abramowitz and
    Stegun 7.1.27, absolute error below 5e-4). *)

Definition erf32 (v : float32) : float32 :=
  let plus := SFadd prec32 emax32 in
  let times := SFmul prec32 emax32 in
  let a := SFabs v in
  let p := plus (f32_of_Z 1)
             (times a (plus (f32_quot 278393 1000000)
               (times a (plus (f32_quot 230389 1000000)
                 (times a (plus (f32_quot 972 1000000)
                   (times a (f32_quot 78108 1000000)))))))) in
  let p4 := times (times p p) (times p p) in
  let r := SFsub prec32 emax32 (f32_of_Z 1)
             (SFdiv prec32 emax32 (f32_of_Z 1) p4) in
  if SFltb v (S754_zero false) then SFopp r else r.

(** A 1x2x2x2 image with the entries -3/4, -2/4, ..., 4/4, and the draws
    of two blocks of width 2. *)

Definition sample_tensor : tensor float32 :=
  {| t_shape := [1; 2; 2; 2];
     t_at := fun n c h w => f32_quot (4 * c + 2 * h + w - 3) 4 |}.

Definition sample_block (k : Z)
  : option (ConvNeXtblock * ConvNeXtblock_params float32) :=
  ConvNeXtblock_new (H := float32_Num erf32) 2
    (fun o c i j => f32_quot (k + 2 * o + i - j) 64)
    (fun o c _ _ => f32_quot (o - 3 * c + k) 8)
    (fun o c _ _ => f32_quot (7 * o + c) 32)
    (fun o => f32_quot (o + 1) 16) (fun o => f32_quot (k - o) 16)
    (fun o => f32_quot (5 + o) 16).

(** A single pixel with two channels, -3/4 and 1/4. *)

Definition sample_pixel : tensor float32 :=
  {| t_shape := [1; 2; 1; 1];
     t_at := fun n c h w => f32_quot (4 * c - 3) 4 |}.

(** A 1x1x4x4 image whose entries are all 2^127 (finite: the largest
    float32 is just below 2^128), and a block of width 1 whose depth-wise
    weights and bias are all 1/8, inside the range of the default
    initialiser (1/7 for a 7x7 depth-wise kernel). *)

Definition huge_tensor : tensor float32 :=
  {| t_shape := [1; 1; 4; 4];
     t_at := fun _ _ _ _ => S754_finite false 8388608 104 |}.

Definition huge_block (erf32 : float32 -> float32)
  : option (ConvNeXtblock * ConvNeXtblock_params float32) :=
  ConvNeXtblock_new (H := float32_Num erf32) 1
    (fun _ _ _ _ => f32_quot 1 8) (fun _ _ _ _ => f32_quot 1 8)
    (fun _ _ _ _ => f32_quot 1 8)
    (fun _ => f32_quot 1 8) (fun _ => f32_quot 1 8) (fun _ => f32_quot 1 8).

(** ** Statements about runs *)

(** Both operands of the residual sum of a block are produced and have the
    same shape. *)

Definition paths_agree (training : bool) (lx : layer * shape) : Prop :=
  is_block (fst lx) = true ->
  exists t, block_main training (fst lx) (snd lx) = Some t /\
            block_shortcut training (fst lx) (snd lx) = Some t.

(** Height and width halved by the flagged blocks and kept by the others. *)


(** The same with the stride of the block deciding; a flagged block of
    stride 1 is one that receives the 64 channels of the stem. *)


Definition is_power_of_two (d : Z) : Prop := exists k : Z, 0 <= k /\ d = 2 ^ k.

(** The 1x1 projection shortcut of [ResBlock] and [ResNextBlock]. *)

Definition projection_shortcut (in_channel out_channel stride : Z) : module :=
  Sequential [ Conv2d in_channel out_channel 1 stride 0 1 false;
               BatchNorm2d out_channel ].

(** Final channel width of each network, in the order of [networks]. *)

Definition feature_widths : list Z := [512; 2048; 2048; 512; 2048; 768].

(** Rounding-up half, the length left by a stride-2 layer. *)

Definition half_up (h : Z) : Z := (h + 1) / 2.

(** Length left by a [ResBlock] along one axis. *)

Definition ResBlock_out (is_downsample : bool) (h : Z) : Z :=
  if is_downsample then half_up h else h.

(** The stride a constructor with an optional [stride] argument ends up
    with: [2 if is_downsample else 1] unless one is given. *)

Definition given_stride (is_downsample : bool) (stride : option Z) : Z :=
  match stride with
  | None => if is_downsample then 2 else 1
  | Some s => s
  end.

(** The five networks that end in a fixed-kernel pooling. *)

Definition fixed_pool_networks : list (Z -> option Network) :=
  [ ResBottleNecknet18; ResBottleNecknet50; PreActResNet; ResNext; ConvNeXt ].

(** ** Further bookkeeping for runs on images of any size *)

(** Length left along one axis by a window of stride [s] that covers the
    whole axis: a 3x3 convolution with padding 1, a 1x1 convolution, or the
    slice [::s]. *)

Definition strided_len (h s : Z) : Z := (h - 1) / s + 1.

(** Evaluation mode, or a batch of at least two images: the cases in which
    batch normalisation cannot meet a single value per channel. *)

Definition eval_or_batch (training : bool) (n : Z) : Prop :=
  training = false \/ 2 <= n.

(** Length left by the three stride-2 stages of the residual networks. *)

Definition stage_len (h : Z) : Z := half_up (half_up (half_up h)).

(** Channel factor of the zero-padding shortcut of [ResBottleNeckBlock]:
    one doubling per iteration of [range(dim // 2)]. *)

Definition identitymap_factor (in_channel out_channel : Z) : Z :=
  2 ^ Z.of_nat (Z.to_nat (out_channel / in_channel / 2)).

(** The networks that end in [AvgPool2d(4)], each with the width of its
    last stage. *)

Definition pool4_networks : list ((Z -> option Network) * Z) :=
  [ (ResBottleNecknet18, 2048); (ResBottleNecknet50, 2048);
    (PreActResNet, 512); (ResNext, 2048) ].

(** Whether every element of a list is related to its successor. *)

Fixpoint pairwise (rel : Z -> Z -> bool) (l : list Z) : bool :=
  match l with
  | a :: (b :: _) as t => rel a b && pairwise rel t
  | _ => true
  end.

(** A stack of [ConvNeXtblock]s applied in order, as inside [ConvNeXt]'s
    [nn.Sequential], on values. *)

Section ValueStacks.

Context {R : Type} `{Num R}.

Fixpoint ConvNeXtblocks_forward_value
  (blocks : list (ConvNeXtblock * ConvNeXtblock_params R)) (x : tensor R)
  : option (tensor R) :=
  match blocks with
  | [] => Some x
  | b :: r =>
      y <- ConvNeXtblock_forward_value b x ;;
      ConvNeXtblocks_forward_value r y
  end.

(** A block as the constructor returns it, whatever the random draws. *)

Definition freshly_built (channel : Z)
  (b : ConvNeXtblock * ConvNeXtblock_params R) : Prop :=
  exists draw_dw draw_pw1 draw_pw2 bias_dw bias_pw1 bias_pw2,
    ConvNeXtblock_new channel draw_dw draw_pw1 draw_pw2
                      bias_dw bias_pw1 bias_pw2 = Some b.

End ValueStacks.

(** Two blocks to run a stack on. *)

Definition sample_stack
  : list (ConvNeXtblock * ConvNeXtblock_params float32) :=
  match sample_block 0, sample_block 1 with
  | Some a, Some b => [a; b]
  | _, _ => []
  end.

(** Whether, along a stack, every block hands finite activations to its
    zeroed projection. *)

Fixpoint hidden_finite_along
  (erf32 : float32 -> float32)
  (blocks : list (ConvNeXtblock * ConvNeXtblock_params float32))
  (x : tensor float32) : bool :=
  match blocks with
  | [] => true
  | b :: r =>
      match ConvNeXtblock_hidden_value (H := float32_Num erf32) b x,
            ConvNeXtblock_forward_value (H := float32_Num erf32) b x with
      | Some hid, Some y =>
          tensor_all isfinite hid && hidden_finite_along erf32 r y
      | _, _ => false
      end
  end.

(** * Proofs *)

Unset Implicit Arguments.

(** ** Layer lemmas *)

Lemma bind_Some {A B : Type} (m : option A) (f : A -> option B) (b : B) :
  bind m f = Some b -> exists a, m = Some a /\ f a = Some b.
Proof. destruct m as [a|]; [now exists a | discriminate]. Qed.

Lemma Conv2d_forward_ok (i o k s p n h w : Z) :
  0 < i -> 0 < o -> 0 < s -> k <= h + 2 * p -> k <= w + 2 * p ->
  Conv2d_forward i o k s p [n; i; h; w]
  = Some [n; o; conv_out h k s p; conv_out w k s p].
Proof.
  intros Hi Ho Hs Hh Hw. unfold Conv2d_forward.
  rewrite Z.eqb_refl.
  apply Z.ltb_lt in Hi, Ho, Hs. apply Z.leb_le in Hh, Hw.
  now rewrite Hi, Ho, Hs, Hh, Hw.
Qed.

Lemma BatchNorm2d_forward_ok (training : bool) (c n h w : Z) :
  (training = true -> n * h * w <> 1) ->
  BatchNorm2d_forward training c [n; c; h; w] = Some [n; c; h; w].
Proof.
  intros H. unfold BatchNorm2d_forward. rewrite Z.eqb_refl.
  destruct training; [|reflexivity].
  destruct (Z.eqb_spec (n * h * w) 1) as [E|E]; [|reflexivity].
  now elim (H eq_refl).
Qed.

Lemma broadcast_rev_same (a : list Z) : broadcast_rev a a = Some a.
Proof.
  induction a as [|x a IH]; [reflexivity|].
  simpl. rewrite IH. simpl. now rewrite Z.eqb_refl.
Qed.

Lemma tensor_add_same (a : shape) : tensor_add a a = Some a.
Proof.
  unfold tensor_add. rewrite broadcast_rev_same. simpl.
  now rewrite rev_involutive.
Qed.

Lemma nn_Linear_ok (i o : Z) :
  0 <= i -> 0 <= o -> nn_Linear i o = Some (Linear i o).
Proof.
  intros Hi Ho. unfold nn_Linear.
  apply Z.leb_le in Hi, Ho. now rewrite Hi, Ho.
Qed.

(** ** Symbolic execution of a run

    With the batch size a variable, every test a run makes computes, except
    the training-mode check of batch normalisation and the comparison of the
    batch axes in a sum; those two are discharged by the lemmas above. *)

Ltac side := first [ reflexivity | lia | (intros _; lia) ].

Ltac expose :=
  lazy beta iota zeta delta
    [forward extract_features net_seq net_flat net_out run_list
     layer_forward module_forward block_main block_shortcut
     ResBlock_forward rb_seq rb_downsample
     ResBottleNeckBlock_forward ResBottleNeckBlock_downsample
     bb_seq bb_downsample
     PreActResBlock_forward PreActResBlock_downsample pa_seq pa_downsample
     ResNextBlock_forward rn_seq rn_downsample
     ConvNeXtblock_forward fst snd].

Ltac compute_call m :=
  lazymatch m with
  | Some _ => fail
  | None => fail
  | bind _ _ => fail
  | BatchNorm2d_forward _ _ _ => fail
  | tensor_add _ _ => fail
  | _ => let v := eval vm_compute in m in progress change m with v
  end.

Ltac exec_prim :=
  match goal with
  | |- context [BatchNorm2d_forward ?t ?c [?n; ?c'; ?h; ?w]] =>
      rewrite (BatchNorm2d_forward_ok t c n h w) by side
  | |- context [tensor_add (?n :: ?l) (?n :: ?l)] =>
      rewrite (tensor_add_same (n :: l))
  | |- context [bind ?m _] => compute_call m
  | |- ?m = _ => compute_call m
  end.

Ltac exec := expose; repeat (exec_prim; cbn [bind]); try reflexivity.

Ltac build_net :=
  lazy beta delta [Resnet18 ResBottleNecknet18 ResBottleNecknet50 PreActResNet
              ResNext ConvNeXt new_Network];
  match goal with
  | |- context [sequence ?l] =>
      let v := eval vm_compute in (sequence l) in change (sequence l) with v
  end;
  rewrite nn_Linear_ok by lia; cbn [bind];
  eexists; split; [reflexivity|].

Lemma In_networks (P : (Z -> option Network) -> Prop) :
  P Resnet18 -> P ResBottleNecknet18 -> P ResBottleNecknet50 ->
  P PreActResNet -> P ResNext -> P ConvNeXt ->
  forall mk, In mk networks -> P mk.
Proof.
  intros H1 H2 H3 H4 H5 H6 mk Hin. simpl in Hin.
  repeat (destruct Hin as [<-|Hin]; [assumption|]). contradiction.
Qed.

(** C1.  Each of the six networks, built with any [class_num >= 1], maps a
    batch of shape [N, 3, 32, 32] with [N >= 1] to shape [N, class_num], in
    training mode as well as in evaluation mode. *)
Theorem forward_shape :
  forall mk, In mk networks ->
  forall (training : bool) (class_num N : Z),
    1 <= class_num -> 1 <= N ->
    exists net, mk class_num = Some net /\
                forward training net [N; 3; 32; 32] = Some [N; class_num].
Proof.
  intros mk Hin. pattern mk. revert mk Hin.
  apply In_networks; intros training class_num N Hc HN.
  all: build_net.
  all: exec.
Qed.

Lemma forward_shape_witness :
  In ResBottleNecknet50 networks /\ 1 <= 10 /\ 1 <= 4 /\
  exists net, ResBottleNecknet50 10 = Some net /\
              forward true net [4; 3; 32; 32] = Some [4; 10].
Proof.
  split; [simpl; tauto|]. split; [lia|]. split; [lia|].
  apply (forward_shape ResBottleNecknet50); [simpl; tauto | lia | lia].
Defined.

(** C8.  On an input of shape [N, 3, 32, 32], [extract_features] of the
    k-th network returns shape [N, F] with F the k-th of 512, 2048, 2048,
    512, 2048, 768. *)
Theorem extract_features_shape :
  forall (k : nat) mk (F : Z),
    nth_error networks k = Some mk ->
    nth_error feature_widths k = Some F ->
    forall (training : bool) (class_num N : Z),
      1 <= class_num ->
      exists net, mk class_num = Some net /\
                  extract_features training net [N; 3; 32; 32] = Some [N; F].
Proof.
  intros k mk F Hmk HF training class_num N Hc.
  do 6 (destruct k as [|k];
        [ injection Hmk as <-; injection HF as <-; build_net; exec |]).
  destruct k; discriminate.
Qed.

Lemma extract_features_shape_witness :
  1 <= 10 /\
  exists net, ConvNeXt 10 = Some net /\
              extract_features false net [8; 3; 32; 32] = Some [8; 768].
Proof.
  split; [lia|].
  apply (extract_features_shape 5 ConvNeXt 768 eq_refl eq_refl false 10 8).
  lia.
Defined.

(** ** Traces *)

Lemma trace_cons_Some (training : bool) (l : layer) (r : list layer)
  (x y : shape) :
  layer_forward training l x = Some y ->
  trace training (l :: r) x = (l, x) :: trace training r y.
Proof. intros E. simpl. now rewrite E. Qed.

Ltac exec_trace :=
  repeat (erewrite trace_cons_Some; [| solve [exec] ]);
  cbn [trace].

Ltac net_trace :=
  build_net; cbn [net_seq]; exec_trace.

(** C3.  In a run of any of the six networks on [N, 3, 32, 32], every layer
    is reached, and at every block the main path and the shortcut both
    produce a tensor, of one and the same shape. *)
Theorem residual_operands_agree :
  forall mk, In mk networks ->
  forall (training : bool) (class_num N : Z),
    1 <= class_num -> 1 <= N ->
    exists net, mk class_num = Some net /\
      let tr := trace training (net_seq net) [N; 3; 32; 32] in
      length tr = length (net_seq net) /\
      Forall (paths_agree training) tr.
Proof.
  intros mk Hin. pattern mk. revert mk Hin.
  apply In_networks; intros training class_num N Hc HN; cbv zeta.
  all: net_trace.
  all: (split; [reflexivity|]).
  all: repeat (apply Forall_cons;
                [ intros Hb; first [ discriminate Hb
                                   | eexists; split; exec ] |]).
  all: apply Forall_nil.
Qed.

Lemma residual_operands_agree_witness :
  In ResNext networks /\ 1 <= 10 /\ 1 <= 1 /\
  exists net, ResNext 10 = Some net /\
    let tr := trace true (net_seq net) [1; 3; 32; 32] in
    length tr = length (net_seq net) /\
    Forall (paths_agree true) tr.
Proof.
  split; [simpl; tauto|]. split; [lia|]. split; [lia|].
  apply (residual_operands_agree ResNext); [simpl; tauto | lia | lia].
Defined.





(** ** Constructors *)

Lemma nn_Conv2d_ok (i o k s p g : Z) (bias : bool) :
  0 < g -> i mod g = 0 -> o mod g = 0 -> 0 <= i -> 0 <= o ->
  nn_Conv2d i o k s p g bias = Some (Conv2d i o k s p g bias).
Proof.
  intros Hg Hi Ho Pi Po. unfold nn_Conv2d.
  apply Z.ltb_lt in Hg. apply Z.eqb_eq in Hi, Ho. apply Z.leb_le in Pi, Po.
  now rewrite Hg, Hi, Ho, Pi, Po.
Qed.

Lemma nn_Conv2d_plain (i o k s p : Z) (bias : bool) :
  0 <= i -> 0 <= o ->
  nn_Conv2d i o k s p 1 bias = Some (Conv2d i o k s p 1 bias).
Proof.
  intros Pi Po. apply nn_Conv2d_ok; try lia; apply Z.mod_1_r.
Qed.

Lemma nn_BatchNorm2d_ok (c : Z) :
  0 <= c -> nn_BatchNorm2d c = Some (BatchNorm2d c).
Proof.
  intros Pc. unfold nn_BatchNorm2d. apply Z.leb_le in Pc. now rewrite Pc.
Qed.

Ltac construct :=
  repeat first
    [ rewrite nn_Conv2d_plain by lia
    | rewrite nn_Conv2d_ok by (assumption || lia)
    | rewrite nn_BatchNorm2d_ok by lia ];
  cbn [nn_Sequential sequence bind].

Lemma ResBlock_init_ok (i o : Z) (ds : bool) :
  0 <= i -> 0 <= o ->
  ResBlock_init i o ds
  = Some {| rb_is_downsample := ds;
            rb_seq :=
              Sequential
                [ Conv2d i o 3 (if ds then 2 else 1) 1 1 false;
                  BatchNorm2d o; ReLU;
                  Conv2d o o 3 1 1 1 false; BatchNorm2d o ];
            rb_downsample :=
              if ds then projection_shortcut i o (if ds then 2 else 1)
              else Identity |}.
Proof.
  intros Pi Po. unfold ResBlock_init, projection_shortcut.
  destruct ds; construct; reflexivity.
Qed.

Lemma ResNextBlock_init_ok (i inner o card : Z) (ds : bool)
  (stride : option Z) :
  0 <= i -> 0 <= inner -> 0 <= o -> 0 < card -> inner mod card = 0 ->
  ResNextBlock_init i inner o card ds stride
  = Some {| rn_seq :=
              Sequential
                [ Conv2d i inner 1 1 0 1 false; BatchNorm2d inner; ReLU;
                  Conv2d inner inner 3 (given_stride ds stride) 1 card false;
                  BatchNorm2d inner; ReLU;
                  Conv2d inner o 1 1 0 1 false; BatchNorm2d o ];
            rn_downsample :=
              if ds then projection_shortcut i o (given_stride ds stride)
              else Identity |}.
Proof.
  intros Pi Pn Po Pc Hdiv.
  unfold ResNextBlock_init, projection_shortcut, given_stride.
  destruct ds; construct; reflexivity.
Qed.

Lemma ResBottleNeckBlock_init_ok (i o : Z) (ds : bool) (stride : option Z) :
  0 <= i -> 0 <= o ->
  ResBottleNeckBlock_init i o ds stride
  = Some {| bb_stride := given_stride ds stride;
            bb_in_channel := i;
            bb_out_channel := o;
            bb_seq :=
              Sequential
                [ Conv2d i (o / 4) 1 1 0 1 false; BatchNorm2d (o / 4); ReLU;
                  Conv2d (o / 4) (o / 4) 3 (given_stride ds stride) 1 1 false;
                  BatchNorm2d (o / 4); ReLU;
                  Conv2d (o / 4) o 1 1 0 1 false; BatchNorm2d o ];
            bb_downsample :=
              if ds then Bound_identitymap else Module_fn Identity |}.
Proof.
  intros Pi Po. assert (0 <= o / 4) by (apply Z.div_pos; lia).
  unfold ResBottleNeckBlock_init, given_stride. construct. reflexivity.
Qed.

(** ** The flag read back from a block is the constructor's argument *)

Lemma flagged_downsample_is_argument (i inner o card : Z) (ds : bool)
  (stride : option Z) :
  (forall b, ResBlock_init i o ds = Some b ->
             flagged_downsample (LResBlock b) = ds) /\
  (forall b, ResBottleNeckBlock_init i o ds stride = Some b ->
             flagged_downsample (LResBottleNeckBlock b) = ds) /\
  (forall b, PreActResBlock_init i o ds = Some b ->
             flagged_downsample (LPreActResBlock b) = ds) /\
  (forall b, ResNextBlock_init i inner o card ds stride = Some b ->
             flagged_downsample (LResNextBlock b) = ds).
Proof.
  repeat split; intros b E.
  - unfold ResBlock_init in E.
    apply bind_Some in E as (s & _ & E).
    apply bind_Some in E as (d & _ & E).
    now injection E as <-.
  - unfold ResBottleNeckBlock_init in E.
    apply bind_Some in E as (s & _ & E).
    injection E as <-. now destruct ds.
  - unfold PreActResBlock_init in E.
    apply bind_Some in E as (s & _ & E).
    injection E as <-. now destruct ds.
  - unfold ResNextBlock_init in E.
    apply bind_Some in E as (s & _ & E).
    apply bind_Some in E as (d & Ed & E).
    injection E as <-. cbn [flagged_downsample rn_downsample].
    destruct ds.
    + unfold nn_Sequential in Ed.
      apply bind_Some in Ed as (l & _ & Ed). now injection Ed as <-.
    + now injection Ed as <-.
Qed.

(** C7 as stated fails in both directions: [ResBlock(64, 128)] changes the
    channel count and has the identity shortcut, and
    [ResNextBlock(256, 128, 256, is_downsample=True, stride=1)] keeps the
    shape and has the projection shortcut. *)
Lemma shortcut_ignores_shapes :
  (exists b, ResBlock_init 64 128 false = Some b /\
     ~ (rb_downsample b = Identity <->
        64 = 128 /\ module_stride (rb_seq b) = 1)) /\
  (exists b, ResNextBlock_init 256 128 256 32 true (Some 1) = Some b /\
     ~ (rn_downsample b = Identity <->
        256 = 256 /\ module_stride (rn_seq b) = 1)).
Proof.
  split; eexists; (split; [reflexivity|]); intros [H1 H2].
  - destruct (H1 eq_refl) as [E _]. discriminate E.
  - discriminate (H2 (conj eq_refl eq_refl)).
Qed.

(** C7, amended.  [ResBlock] and [ResNextBlock] choose the shortcut from
    [is_downsample] alone: the identity when it is false, and when it is
    true a 1x1 convolution with the stride of the main path followed by
    batch normalisation; the channel counts are not consulted. *)
Theorem shortcut_follows_flag :
  forall (i inner o card : Z) (ds : bool) (stride : option Z),
    0 <= i -> 0 <= inner -> 0 <= o -> 0 < card -> inner mod card = 0 ->
    (exists b, ResBlock_init i o ds = Some b /\
       rb_downsample b
       = if ds then projection_shortcut i o (module_stride (rb_seq b))
         else Identity) /\
    (exists b, ResNextBlock_init i inner o card ds stride = Some b /\
       rn_downsample b
       = if ds then projection_shortcut i o (module_stride (rn_seq b))
         else Identity).
Proof.
  intros i inner o card ds stride Pi Pn Po Pc Hdiv. split.
  - rewrite ResBlock_init_ok by assumption. eexists. split; [reflexivity|].
    cbn [rb_downsample rb_seq module_stride fold_right].
    destruct ds; [|reflexivity]. f_equal.
  - rewrite ResNextBlock_init_ok by assumption.
    eexists. split; [reflexivity|].
    cbn [rn_downsample rn_seq module_stride fold_right].
    destruct ds; [|reflexivity]. f_equal. lia.
Qed.

Lemma shortcut_follows_flag_witness :
  0 <= 64 /\ 0 <= 128 /\ 0 <= 256 /\ 0 < 32 /\ 128 mod 32 = 0 /\
  (exists b, ResBlock_init 64 256 true = Some b /\
     rb_downsample b
     = if true then projection_shortcut 64 256 (module_stride (rb_seq b))
       else Identity) /\
  (exists b, ResNextBlock_init 64 128 256 32 true (Some 1) = Some b /\
     rn_downsample b
     = if true then projection_shortcut 64 256 (module_stride (rn_seq b))
       else Identity).
Proof.
  repeat (split; [first [lia | reflexivity]|]).
  apply (shortcut_follows_flag 64 128 256 32 true (Some 1));
    first [lia | reflexivity].
Defined.

(** ** The zero-padding shortcut of the bottleneck block *)

Lemma for_range_concat (k : nat) (n c : Z) (r : list Z) :
  for_range k concat_zeros_like (n :: c :: r)
  = Some (n :: c * 2 ^ Z.of_nat k :: r).
Proof.
  revert c. induction k as [|k IH]; intros c.
  - simpl. now rewrite Z.mul_1_r.
  - cbn [for_range concat_zeros_like bind]. rewrite IH.
    rewrite Nat2Z.inj_succ, Z.pow_succ_r by lia.
    do 3 f_equal. lia.
Qed.

(** Number of doublings the loop of [_identitymap] performs. *)

Lemma identitymap_shape (b : ResBottleNeckBlock) (n c h w : Z) :
  0 < bb_stride b -> bb_in_channel b <> 0 ->
  ResBottleNeckBlock_identitymap b [n; c; h; w]
  = Some [n;
          c * 2 ^ Z.of_nat (Z.to_nat (bb_out_channel b / bb_in_channel b / 2));
          slice_len h (bb_stride b); slice_len w (bb_stride b)].
Proof.
  intros Hs Hi. unfold ResBottleNeckBlock_identitymap, strided_slice.
  apply Z.ltb_lt in Hs. rewrite Hs. cbn [bind].
  apply Z.eqb_neq in Hi. rewrite Hi.
  apply for_range_concat.
Qed.

(** For the ratios 1, 2 and 4 the loop count [ratio // 2] is the binary
    logarithm of the ratio, and the shortcut has [out_channel] channels. *)

Lemma identitymap_small_ratio (i o : Z) (stride : option Z) (n h w : Z) :
  1 <= i -> 0 < given_stride true stride ->
  o = i \/ o = 2 * i \/ o = 4 * i ->
  exists b, ResBottleNeckBlock_init i o true stride = Some b /\
    ResBottleNeckBlock_identitymap b [n; i; h; w]
    = Some [n; o; slice_len h (given_stride true stride);
            slice_len w (given_stride true stride)].
Proof.
  intros Hi Hs Ho.
  rewrite ResBottleNeckBlock_init_ok by lia.
  eexists. split; [reflexivity|].
  rewrite identitymap_shape by (cbn; lia). cbn [bb_stride bb_in_channel
    bb_out_channel].
  assert (E : i * 2 ^ Z.of_nat (Z.to_nat (o / i / 2)) = o).
  { destruct Ho as [-> | [-> | ->]].
    - rewrite Z.div_same by lia. change (1 / 2) with 0.
      change (2 ^ Z.of_nat (Z.to_nat 0)) with 1. lia.
    - rewrite Z.div_mul by lia. change (2 / 2) with 1.
      change (2 ^ Z.of_nat (Z.to_nat 1)) with 2. lia.
    - rewrite Z.div_mul by lia. change (4 / 2) with 2.
      change (2 ^ Z.of_nat (Z.to_nat 2)) with 4. lia. }
  now rewrite E.
Qed.

(** The example of the specification: 64 to 256 channels with stride 1. *)

Lemma identitymap_64_256 (n h w : Z) :
  exists b, ResBottleNeckBlock_init 64 256 true (Some 1) = Some b /\
    ResBottleNeckBlock_identitymap b [n; 64; h; w] = Some [n; 256; h; w].
Proof.
  destruct (identitymap_small_ratio 64 256 (Some 1) n h w)
    as [b [Hb E]]; try (cbn; lia).
  exists b. split; [exact Hb|]. rewrite E. unfold slice_len, given_stride.
  now rewrite !Z.add_simpl_r, !Z.div_1_r.
Qed.

(** C5 fails on the code at ratio 8: [ResBottleNeckBlock(64, 512,
    is_downsample=True)] runs the doubling loop [8 // 2 = 4] times, so the
    shortcut has 64 * 16 = 1024 channels, not 512, and [forward] raises at
    the sum. *)
Theorem identitymap_ratio_8 :
  is_power_of_two (512 / 64) /\
  exists b, ResBottleNeckBlock_init 64 512 true None = Some b /\
    ResBottleNeckBlock_identitymap b [1; 64; 8; 8] = Some [1; 1024; 4; 4] /\
    block_main true (LResBottleNeckBlock b) [1; 64; 8; 8]
      = Some [1; 512; 4; 4] /\
    ResBottleNeckBlock_forward true b [1; 64; 8; 8] = None.
Proof.
  split; [exists 3; split; [lia|reflexivity]|].
  eexists. split; [reflexivity|].
  repeat split; reflexivity.
Qed.

(** ** Failure of ill-matched bottleneck blocks *)

Lemma Conv2d_forward_inv (i o k s p : Z) (x y : shape) :
  Conv2d_forward i o k s p x = Some y ->
  exists n h w, x = [n; i; h; w] /\ 0 < s /\
                y = [n; o; conv_out h k s p; conv_out w k s p].
Proof.
  unfold Conv2d_forward.
  destruct x as [|n [|c [|h [|w [|? ?]]]]]; try discriminate.
  destruct (Z.eqb_spec c i) as [->|]; [|discriminate].
  destruct (0 <? i); [|discriminate].
  destruct (0 <? o); [|discriminate].
  destruct (Z.ltb_spec 0 s); [|discriminate].
  cbn [andb].
  destruct (_ && _); [|discriminate].
  intros [= <-]. now exists n, h, w.
Qed.

Lemma BatchNorm2d_forward_inv (training : bool) (c : Z) (x y : shape) :
  BatchNorm2d_forward training c x = Some y ->
  y = x /\ exists n h w, x = [n; c; h; w].
Proof.
  unfold BatchNorm2d_forward.
  destruct x as [|n [|c' [|h [|w [|? ?]]]]]; try discriminate.
  destruct (Z.eqb_spec c' c) as [->|]; [|discriminate].
  intros E. split; [|now exists n, h, w].
  destruct training; [destruct (_ =? 1)|]; congruence.
Qed.

Lemma bottleneck_main_shape (training : bool) (i o s : Z) (x y : shape) :
  module_forward training
    (Sequential
       [ Conv2d i (o / 4) 1 1 0 1 false; BatchNorm2d (o / 4); ReLU;
         Conv2d (o / 4) (o / 4) 3 s 1 1 false;
         BatchNorm2d (o / 4); ReLU;
         Conv2d (o / 4) o 1 1 0 1 false; BatchNorm2d o ]) x = Some y ->
  0 < s /\ exists n h w h' w', x = [n; i; h; w] /\ y = [n; o; h'; w'].
Proof.
  cbn [module_forward run_list]. intros E.
  apply bind_Some in E as [x1 [E1 E]].
  apply Conv2d_forward_inv in E1 as (n & h & w & -> & _ & ->).
  apply bind_Some in E as [x2 [E2 E]].
  apply BatchNorm2d_forward_inv in E2 as [-> _].
  cbn [bind] in E.
  apply bind_Some in E as [x3 [E3 E]].
  apply Conv2d_forward_inv in E3 as (? & h3 & w3 & [= <- <- <-] & Hs & ->).
  apply bind_Some in E as [x4 [E4 E]].
  apply BatchNorm2d_forward_inv in E4 as [-> _].
  cbn [bind] in E.
  apply bind_Some in E as [x5 [E5 E]].
  apply Conv2d_forward_inv in E5 as (? & h5 & w5 & [= <- <- <-] & _ & ->).
  apply bind_Some in E as [x6 [E6 E]].
  apply BatchNorm2d_forward_inv in E6 as [-> _].
  injection E as <-.
  split; [exact Hs|]. now eexists n, h, w, _, _.
Qed.

Lemma tensor_add_channel_mismatch (n1 c1 h1 w1 n2 c2 h2 w2 : Z) :
  c1 <> c2 -> c1 <> 1 -> c2 <> 1 ->
  tensor_add [n1; c1; h1; w1] [n2; c2; h2; w2] = None.
Proof.
  intros H12 H1 H2. unfold tensor_add. cbn [rev app broadcast_rev].
  apply Z.eqb_neq in H12, H1, H2.
  destruct (n1 =? n2), (n1 =? 1), (n2 =? 1); cbn [bind];
    rewrite ?H12, ?H1, ?H2; reflexivity.
Qed.

Lemma power_of_two_ratio (i o : Z) :
  1 <= i -> 4 <= o ->
  o mod i <> 0 \/ ~ is_power_of_two (o / i) ->
  let c := i * 2 ^ Z.of_nat (Z.to_nat (o / i / 2)) in
  o <> c /\ c <> 1.
Proof.
  intros Hi Ho Hbad c. subst c.
  set (k := Z.of_nat (Z.to_nat (o / i / 2))).
  assert (Hk : 0 <= k) by (unfold k; lia).
  assert (Hp : 0 < 2 ^ k) by (apply Z.pow_pos_nonneg; lia).
  split.
  - intros E. destruct Hbad as [Hm|Hn].
    + apply Hm. rewrite E, Z.mul_comm. apply Z.mod_mul. lia.
    + apply Hn. exists k. split; [exact Hk|].
      rewrite E, Z.mul_comm. apply Z.div_mul. lia.
  - intros E.
    assert (Ei : i = 1) by nia. subst i.
    assert (E2 : 2 ^ k = 1) by lia.
    assert (k = 0).
    { destruct (Z.eq_dec k 0) as [|Hne]; [assumption|].
      assert (2 ^ 1 <= 2 ^ k) by (apply Z.pow_le_mono_r; lia).
      change (2 ^ 1) with 2 in *. lia. }
    unfold k in *. rewrite Z.div_1_r in *.
    assert (o / 2 <= 0) by lia.
    assert (2 <= o / 2) by (apply Z.div_le_lower_bound; lia). lia.
Qed.

(** C4 as stated fails: the constructor accepts a pair with
    [out_channel % in_channel != 0] and a pair whose ratio is 3. *)
Lemma bottleneck_init_accepts_any_pair :
  (100 mod 64 <> 0 /\
   exists b, ResBottleNeckBlock_init 64 100 true None = Some b) /\
  (~ is_power_of_two (192 / 64) /\
   exists b, ResBottleNeckBlock_init 64 192 true None = Some b).
Proof.
  split; split; try (eexists; reflexivity).
  - discriminate.
  - intros [k [Hk E]]. change (192 / 64) with 3 in E.
    destruct (Z.eq_dec k 0) as [->|]; [discriminate|].
    destruct (Z.eq_dec k 1) as [->|]; [discriminate|].
    assert (2 ^ 2 <= 2 ^ k) by (apply Z.pow_le_mono_r; lia).
    change (2 ^ 2) with 4 in *. lia.
Qed.

(** C4, amended.  With [is_downsample] true, [in_channel >= 1] and
    [out_channel >= 4], construction succeeds whatever the channel pair; when
    [out_channel % in_channel != 0] or the ratio is not a power of two, the
    block is rejected at forward time: [forward] raises on every input. *)
Theorem bottleneck_mismatch_raises_in_forward :
  forall (i o : Z) (stride : option Z),
    1 <= i -> 4 <= o ->
    o mod i <> 0 \/ ~ is_power_of_two (o / i) ->
    exists b, ResBottleNeckBlock_init i o true stride = Some b /\
      forall (training : bool) (x : shape),
        ResBottleNeckBlock_forward training b x = None.
Proof.
  intros i o stride Hi Ho Hbad.
  rewrite ResBottleNeckBlock_init_ok by lia.
  eexists. split; [reflexivity|]. intros training x.
  unfold ResBottleNeckBlock_forward. cbn [bb_seq].
  destruct (module_forward training _ x) as [y|] eqn:E; [|reflexivity].
  apply bottleneck_main_shape in E
    as (Hs & n & h & w & h' & w' & -> & ->).
  cbn [bind]. unfold ResBottleNeckBlock_downsample. cbn [bb_downsample].
  rewrite identitymap_shape by (cbn; lia).
  cbn [bind bb_stride bb_in_channel bb_out_channel].
  destruct (power_of_two_ratio i o Hi Ho Hbad) as [Hne H1].
  rewrite tensor_add_channel_mismatch;
    [reflexivity | exact Hne | lia | exact H1].
Qed.

Lemma bottleneck_mismatch_raises_in_forward_witness :
  1 <= 64 /\ 4 <= 100 /\ (100 mod 64 <> 0 \/ ~ is_power_of_two (100 / 64)) /\
  exists b, ResBottleNeckBlock_init 64 100 true None = Some b /\
    forall (training : bool) (x : shape),
      ResBottleNeckBlock_forward training b x = None.
Proof.
  split; [lia|]. split; [lia|].
  assert (H : 100 mod 64 <> 0 \/ ~ is_power_of_two (100 / 64))
    by (left; discriminate).
  split; [exact H|].
  apply (bottleneck_mismatch_raises_in_forward 64 100 None);
    [lia | lia | exact H].
Defined.

(** ** [Resnet18] on images of any size *)

Lemma conv_out_3_1_1 (h : Z) : conv_out h 3 1 1 = h.
Proof. unfold conv_out. rewrite Z.div_1_r. lia. Qed.

Lemma conv_out_3_2_1 (h : Z) : conv_out h 3 2 1 = half_up h.
Proof.
  unfold conv_out, half_up.
  replace (h + 1) with (h + 2 * 1 - 3 + 1 * 2) by lia.
  now rewrite Z.div_add by lia.
Qed.

Lemma conv_out_1_2_0 (h : Z) : conv_out h 1 2 0 = half_up h.
Proof.
  unfold conv_out, half_up.
  replace (h + 1) with (h + 2 * 0 - 1 + 1 * 2) by lia.
  now rewrite Z.div_add by lia.
Qed.

Lemma half_up_pos (h : Z) : 1 <= h -> 1 <= half_up h.
Proof.
  intros Hh. unfold half_up. apply Z.div_le_lower_bound; lia.
Qed.

Lemma half_up_big (h m : Z) : 2 * m - 1 <= h -> m <= half_up h.
Proof.
  intros Hh. unfold half_up. apply Z.div_le_lower_bound; lia.
Qed.

Lemma half_up_small (h m : Z) : h <= 2 * m -> half_up h <= m.
Proof.
  intros Hh. unfold half_up.
  apply Z.lt_succ_r. apply Z.div_lt_upper_bound; lia.
Qed.

Lemma values_per_channel (n a b : Z) :
  1 <= n -> 1 <= a -> 1 <= b -> 2 <= n \/ 2 <= a \/ 2 <= b ->
  n * a * b <> 1.
Proof. intros Hn Ha Hb Hbig. nia. Qed.

Lemma AdaptiveAvgPool2d_forward_ok (oh ow n c h w : Z) :
  0 < c -> 0 < h -> 0 < w ->
  AdaptiveAvgPool2d_forward oh ow [n; c; h; w] = Some [n; c; oh; ow].
Proof.
  intros Hc Hh Hw. unfold AdaptiveAvgPool2d_forward.
  apply Z.ltb_lt in Hc, Hh, Hw. now rewrite Hc, Hh, Hw.
Qed.

Ltac exec_sym :=
  repeat (first [ rewrite Conv2d_forward_ok by lia
                | rewrite BatchNorm2d_forward_ok by assumption
                | rewrite tensor_add_same ];
          rewrite ?conv_out_3_1_1, ?conv_out_3_2_1, ?conv_out_1_2_0;
          cbn [bind]).

(** A [ResBlock] on any image: with [is_downsample] the 3x3 stride-2
    convolution of the main path and the 1x1 stride-2 convolution of the
    shortcut both leave ceil(h/2) by ceil(w/2). *)

Lemma ResBlock_any_size (training : bool) (i o : Z) (ds : bool) (n h w : Z) :
  1 <= i -> 1 <= o -> 1 <= h -> 1 <= w ->
  (ds = false -> i = o) ->
  (training = true -> n * ResBlock_out ds h * ResBlock_out ds w <> 1) ->
  exists b, ResBlock_init i o ds = Some b /\
    let y := [n; o; ResBlock_out ds h; ResBlock_out ds w] in
    block_main training (LResBlock b) [n; i; h; w] = Some y /\
    block_shortcut training (LResBlock b) [n; i; h; w] = Some y /\
    ResBlock_forward training b [n; i; h; w] = Some y.
Proof.
  intros Pi Po Hh Hw Hio Hbn.
  rewrite ResBlock_init_ok by lia.
  eexists. split; [reflexivity|]. cbv zeta.
  pose proof (half_up_pos h Hh). pose proof (half_up_pos w Hw).
  unfold ResBlock_forward, block_main, block_shortcut, projection_shortcut.
  destruct ds; [|rewrite <- (Hio eq_refl)];
    cbn [ResBlock_out rb_seq rb_downsample module_forward run_list] in *;
    exec_sym; repeat split; reflexivity.
Qed.

Ltac use_ResBlock training i o ds n h w side :=
  let b := fresh "b" in let Hb := fresh "Hb" in let Hf := fresh "Hf" in
  destruct (ResBlock_any_size training i o ds n h w) as (b & Hb & _ & _ & Hf);
  [ lia | lia | lia | lia
  | first [ reflexivity | discriminate ]
  | cbn [ResBlock_out]; side
  | vm_compute in Hb; injection Hb as <-;
    cbn [ResBlock_out] in Hf; rewrite Hf; clear Hf; cbn [bind] ].

Lemma half_up_mono2 (h : Z) : 1 <= h -> 2 <= half_up h -> 2 <= h.
Proof. intros Hh Hge. pose proof (half_up_small h 1). lia. Qed.

Lemma Resnet18_run_any_size (training : bool) (class_num N H W : Z) :
  1 <= class_num -> 1 <= N -> 1 <= H -> 1 <= W ->
  training = false \/ 2 <= N \/ 9 <= H \/ 9 <= W ->
  exists net, Resnet18 class_num = Some net /\
    run_list (layer_forward training) (net_seq net) [N; 3; H; W]
    = Some [N; 512; 1; 1].
Proof.
  intros Hc HN HH HW Hmode.
  assert (Hbig : training = true ->
                 2 <= N \/ 2 <= half_up (half_up (half_up H))
                 \/ 2 <= half_up (half_up (half_up W))).
  { intros ->. destruct Hmode as [E|[E|[E|E]]]; [discriminate | tauto | |].
    - right; left. do 3 (apply half_up_big). lia.
    - right; right. do 3 (apply half_up_big). lia. }
  clear Hmode.
  remember (half_up H) as H2 eqn:EH2.
  remember (half_up H2) as H4 eqn:EH4.
  remember (half_up H4) as H8 eqn:EH8.
  remember (half_up W) as W2 eqn:EW2.
  remember (half_up W2) as W4 eqn:EW4.
  remember (half_up W4) as W8 eqn:EW8.
  pose proof (half_up_pos H HH) as P2. rewrite <- EH2 in P2.
  pose proof (half_up_pos _ P2) as P4. rewrite <- EH4 in P4.
  pose proof (half_up_pos _ P4) as P8. rewrite <- EH8 in P8.
  pose proof (half_up_pos W HW) as Q2. rewrite <- EW2 in Q2.
  pose proof (half_up_pos _ Q2) as Q4. rewrite <- EW4 in Q4.
  pose proof (half_up_pos _ Q4) as Q8. rewrite <- EW8 in Q8.
  pose proof (half_up_mono2 H HH) as M2. rewrite <- EH2 in M2.
  pose proof (half_up_mono2 _ P2) as M4. rewrite <- EH4 in M4.
  pose proof (half_up_mono2 _ P4) as M8. rewrite <- EH8 in M8.
  pose proof (half_up_mono2 W HW) as L2. rewrite <- EW2 in L2.
  pose proof (half_up_mono2 _ Q2) as L4. rewrite <- EW4 in L4.
  pose proof (half_up_mono2 _ Q4) as L8. rewrite <- EW8 in L8.
  assert (Hbn : forall h w, 1 <= h -> 1 <= w ->
                  (2 <= H8 -> 2 <= h) -> (2 <= W8 -> 2 <= w) ->
                  training = true -> N * h * w <> 1).
  { intros h w Ph Pw Mh Mw E. apply values_per_channel; try lia.
    destruct (Hbig E) as [?|[?|?]]; [left|right; left|right; right]; auto. }
  build_net.
  cbn [net_seq run_list layer_forward module_forward].
  rewrite Conv2d_forward_ok by lia. rewrite !conv_out_3_1_1. cbn [bind].
  rewrite BatchNorm2d_forward_ok by (apply Hbn; lia).
  cbn [bind].
  use_ResBlock training 64 64 false N H W ltac:(apply Hbn; lia).
  use_ResBlock training 64 64 false N H W ltac:(apply Hbn; lia).
  use_ResBlock training 64 128 true N H W
    ltac:(rewrite <- EH2, <- EW2; apply Hbn; lia).
  rewrite <- EH2, <- EW2.
  use_ResBlock training 128 128 false N H2 W2 ltac:(apply Hbn; lia).
  use_ResBlock training 128 256 true N H2 W2
    ltac:(rewrite <- EH4, <- EW4; apply Hbn; lia).
  rewrite <- EH4, <- EW4.
  use_ResBlock training 256 256 false N H4 W4 ltac:(apply Hbn; lia).
  use_ResBlock training 256 512 true N H4 W4
    ltac:(rewrite <- EH8, <- EW8; apply Hbn; lia).
  rewrite <- EH8, <- EW8.
  use_ResBlock training 512 512 false N H8 W8 ltac:(apply Hbn; lia).
  rewrite AdaptiveAvgPool2d_forward_ok by lia. reflexivity.
Qed.

(** C10 as stated fails: a freshly built network is in training mode, and
    on a single 8x8 image the last stage has one value per channel, which
    training-mode batch normalisation rejects. *)
Lemma Resnet18_single_small_image :
  exists net, Resnet18 10 = Some net /\
    forward true net [1; 3; 8; 8] = None /\
    extract_features true net [1; 3; 8; 8] = None.
Proof. eexists. split; [reflexivity|]. split; reflexivity. Qed.

(** C10, amended.  [Resnet18] accepts every image size [H, W >= 1] in
    evaluation mode, and in training mode unless the batch is a single
    image of at most 8x8: [forward] returns [N, class_num] and
    [extract_features] returns [N, 512].  A downsampling [ResBlock] with
    positive channel counts leaves ceil(H/2) by ceil(W/2) on the main path
    and on the shortcut alike.  The other five networks raise on 16x16
    images. *)
Theorem Resnet18_any_size :
  forall (training : bool) (class_num N H W : Z),
    1 <= class_num -> 1 <= N -> 1 <= H -> 1 <= W ->
    training = false \/ 2 <= N \/ 9 <= H \/ 9 <= W ->
    (exists net, Resnet18 class_num = Some net /\
       forward training net [N; 3; H; W] = Some [N; class_num] /\
       extract_features training net [N; 3; H; W] = Some [N; 512]) /\
    (forall i o, 1 <= i -> 1 <= o ->
       exists b, ResBlock_init i o true = Some b /\
         block_main training (LResBlock b) [N; i; H; W]
           = Some [N; o; half_up H; half_up W] /\
         block_shortcut training (LResBlock b) [N; i; H; W]
           = Some [N; o; half_up H; half_up W]) /\
    (forall mk, In mk fixed_pool_networks ->
       exists net, mk class_num = Some net /\
                   forward training net [N; 3; 16; 16] = None).
Proof.
  intros training class_num N H W Hc HN HH HW Hmode. split; [|split].
  - destruct (Resnet18_run_any_size training class_num N H W)
      as (net & Hnet & Hrun); try assumption.
    exists net. split; [exact Hnet|].
    unfold forward, extract_features. rewrite Hrun. cbn [bind].
    unfold Resnet18, new_Network in Hnet.
    rewrite nn_Linear_ok in Hnet by lia.
    destruct (sequence Resnet18_layers); [|discriminate].
    injection Hnet as <-. cbn [net_flat net_out module_forward].
    split; reflexivity.
  - intros i o Pi Po.
    destruct (ResBlock_any_size training i o true N H W)
      as (b & Hb & Hm & Hs & _); try lia; try discriminate.
    + intros E. cbn [ResBlock_out]. apply values_per_channel; try lia.
      * now apply half_up_pos.
      * now apply half_up_pos.
      * destruct Hmode as [E'|[?|[?|?]]]; [congruence | tauto | |].
        -- right; left. apply half_up_big. lia.
        -- right; right. apply half_up_big. lia.
    + exists b. auto.
  - intros mk Hin. simpl in Hin.
    repeat (destruct Hin as [<-|Hin]; [build_net; exec|]).
    contradiction.
Qed.

Lemma Resnet18_any_size_witness :
  1 <= 10 /\ 1 <= 1 /\ 1 <= 7 /\ 1 <= 50 /\
  (true = false \/ 2 <= 1 \/ 9 <= 7 \/ 9 <= 50) /\
  (exists net, Resnet18 10 = Some net /\
     forward true net [1; 3; 7; 50] = Some [1; 10] /\
     extract_features true net [1; 3; 7; 50] = Some [1; 512]) /\
  (forall i o, 1 <= i -> 1 <= o ->
     exists b, ResBlock_init i o true = Some b /\
       block_main true (LResBlock b) [1; i; 7; 50]
         = Some [1; o; half_up 7; half_up 50] /\
       block_shortcut true (LResBlock b) [1; i; 7; 50]
         = Some [1; o; half_up 7; half_up 50]) /\
  (forall mk, In mk fixed_pool_networks ->
     exists net, mk 10 = Some net /\
                 forward true net [1; 3; 16; 16] = None).
Proof.
  assert (Hm : true = false \/ 2 <= 1 \/ 9 <= 7 \/ 9 <= 50)
    by (right; right; right; lia).
  repeat (split; [first [lia | exact Hm]|]).
  apply (Resnet18_any_size true 10 1 7 50); first [lia | exact Hm].
Defined.

(** In training mode the excluded inputs are all rejected, so the side
    condition of the amended claim is exact. *)

Lemma Resnet18_rejects_small_single_images (H W : Z) :
  1 <= H <= 8 -> 1 <= W <= 8 ->
  exists net, Resnet18 10 = Some net /\
              forward true net [1; 3; H; W] = None.
Proof.
  intros HH HW. eexists. split; [reflexivity|].
  assert (EH : H = 1 \/ H = 2 \/ H = 3 \/ H = 4 \/ H = 5 \/ H = 6 \/ H = 7
               \/ H = 8) by lia.
  assert (EW : W = 1 \/ W = 2 \/ W = 3 \/ W = 4 \/ W = 5 \/ W = 6 \/ W = 7
               \/ W = 8) by lia.
  clear HH HW.
  repeat (destruct EH as [->|EH]); subst;
    repeat (destruct EW as [->|EW]); subst; reflexivity.
Qed.

(** ** Shapes in the value semantics *)

Section ValueProofs.

Context {R : Type} `{Num R}.

Lemma conv_out_7_1_3 (h : Z) : conv_out h 7 1 3 = h.
Proof. unfold conv_out. rewrite Z.div_1_r. lia. Qed.

Lemma conv_out_1_1_0 (h : Z) : conv_out h 1 1 0 = h.
Proof. unfold conv_out. rewrite Z.div_1_r. lia. Qed.

Lemma LayerNorm_forward_ok (c n h w : Z) :
  LayerNorm_forward c [n; h; w; c] = Some [n; h; w; c].
Proof. unfold LayerNorm_forward. simpl. now rewrite Z.eqb_refl. Qed.

Lemma bidx_in_range (s : shape) (axis : nat) (i : Z) :
  0 <= i < nth axis s 0 -> bidx s axis i = i.
Proof.
  intros Hi. unfold bidx.
  destruct (Z.eqb_spec (nth axis s 0) 1) as [E|]; [lia | reflexivity].
Qed.

Lemma conv2d_value_shape (i o k s pad g : Z) (bias : bool)
  (p : conv_params R) (x : tensor R) (sh : shape) :
  Conv2d_forward i o k s pad (t_shape x) = Some sh ->
  exists y, conv2d_value (Conv2d i o k s pad g bias) p x = Some y /\
            t_shape y = sh.
Proof.
  intros E. cbn [conv2d_value]. rewrite E. cbn [bind].
  eexists. split; reflexivity.
Qed.

Lemma permute_0231_value_shape (x : tensor R) (n c h w : Z) :
  t_shape x = [n; c; h; w] ->
  exists y, permute_0231_value x = Some y /\ t_shape y = [n; h; w; c].
Proof.
  intros E. unfold permute_0231_value. rewrite E. cbn [permute_0231 bind].
  eexists. split; reflexivity.
Qed.

Lemma permute_0312_value_shape (x : tensor R) (n c h w : Z) :
  t_shape x = [n; h; w; c] ->
  exists y, permute_0312_value x = Some y /\ t_shape y = [n; c; h; w].
Proof.
  intros E. unfold permute_0312_value. rewrite E. cbn [permute_0312 bind].
  eexists. split; reflexivity.
Qed.

Lemma layer_norm_value_shape (c : Z) (weight bias : Z -> R) (x : tensor R)
  (n h w : Z) :
  t_shape x = [n; h; w; c] ->
  exists y, layer_norm_value (LayerNorm c) weight bias x = Some y /\
            t_shape y = [n; h; w; c].
Proof.
  intros E. cbn [layer_norm_value]. rewrite E, LayerNorm_forward_ok.
  cbn [bind]. eexists. split; reflexivity.
Qed.

(** The value semantics and the shape semantics of the block agree. *)

Lemma shape_bind (m : option (tensor R)) (ms : option shape)
  (f : tensor R -> option (tensor R)) (fs : shape -> option shape) :
  option_map (@t_shape R) m = ms ->
  (forall t, option_map (@t_shape R) (f t) = fs (t_shape t)) ->
  option_map (@t_shape R) (bind m f) = bind ms fs.
Proof.
  intros <- Hf. destruct m as [t|]; [apply Hf | reflexivity].
Qed.

Lemma bind_assoc {A B C : Type} (m : option A) (f : A -> option B)
  (g : B -> option C) :
  bind (bind m f) g = bind m (fun a => bind (f a) g).
Proof. now destruct m. Qed.

Lemma conv2d_value_t_shape (i o k s pad g : Z) (bias : bool)
  (p : conv_params R) (x : tensor R) :
  option_map (@t_shape R) (conv2d_value (Conv2d i o k s pad g bias) p x)
  = Conv2d_forward i o k s pad (t_shape x).
Proof.
  cbn [conv2d_value]. now destruct (Conv2d_forward i o k s pad (t_shape x)).
Qed.

Lemma ConvNeXtblock_forward_value_shape (training : bool) (channel : Z)
  (draw_dw draw_pw1 draw_pw2 : Z -> Z -> Z -> Z -> R)
  (bias_dw bias_pw1 bias_pw2 : Z -> R)
  (block : ConvNeXtblock * ConvNeXtblock_params R) (x : tensor R) :
  ConvNeXtblock_new channel draw_dw draw_pw1 draw_pw2
                    bias_dw bias_pw1 bias_pw2 = Some block ->
  option_map (@t_shape R) (ConvNeXtblock_forward_value block x)
  = ConvNeXtblock_forward training (fst block) (t_shape x).
Proof.
  unfold ConvNeXtblock_new, ConvNeXtblock_init, nn_Conv2d, nn_LayerNorm.
  intros E.
  repeat match type of E with
         | context [if ?c then _ else _] =>
             destruct c; [|discriminate E]
         end.
  cbn [bind] in E. injection E as <-.
  unfold ConvNeXtblock_forward_value, ConvNeXtblock_forward,
    ConvNeXtblock_main.
  cbn [fst cn_depth_wise cn_norm cn_point_wise1 cn_gelu cn_point_wise2
       module_forward].
  rewrite !bind_assoc.
  apply shape_bind; [apply conv2d_value_t_shape | intros x1].
  rewrite !bind_assoc.
  apply shape_bind.
  { unfold permute_0231_value. now destruct (permute_0231 (t_shape x1)). }
  intros x2. rewrite !bind_assoc.
  apply shape_bind.
  { cbn [layer_norm_value].
    now destruct (LayerNorm_forward channel (t_shape x2)). }
  intros x3. rewrite !bind_assoc.
  apply shape_bind.
  { unfold permute_0312_value. now destruct (permute_0312 (t_shape x3)). }
  intros x4. rewrite !bind_assoc.
  apply shape_bind; [apply conv2d_value_t_shape | intros x5].
  cbn [bind gelu_value].
  change (t_shape x5) with
    (t_shape {| t_shape := t_shape x5;
                t_at := fun n c h w => gelu (t_at x5 n c h w) |}) at 2.
  apply shape_bind; [apply conv2d_value_t_shape | intros x7].
  unfold tensor_add_value.
  now destruct (tensor_add (t_shape x7) (t_shape x)).
Qed.

End ValueProofs.

(** ** The zero-initialised block on float32 tensors *)

(** float32 arithmetic around zero. *)

Lemma SFeqb_refl (v : float32) : isnan v = false -> SFeqb v v = true.
Proof.
  destruct v as [s|s| |s m e]; try discriminate; intros _;
    unfold SFeqb, SFcompare.
  - reflexivity.
  - now destruct s.
  - destruct s; now rewrite Z.compare_refl, Pos.compare_cont_refl.
Qed.

Lemma SFeqb_true (a b : float32) :
  SFeqb a b = true ->
  (iszero a = true /\ iszero b = true) \/ (a = b /\ isnan a = false).
Proof.
  unfold SFeqb, SFcompare.
  destruct a as [s|s| |s m e], b as [s'|s'| |s' m' e'];
    try discriminate; try (now left); try (destruct s; discriminate);
    try (destruct s'; discriminate).
  - destruct s, s'; try discriminate; now right.
  - destruct s, s'; try discriminate;
      destruct (Z.compare_spec e e') as [->| |]; try discriminate;
      destruct (Pos.compare_cont Eq m m') eqn:E; try discriminate;
      apply Pos.compare_eq in E; subst; now right.
Qed.

Lemma SFeqb_zeros (a b : float32) :
  iszero a = true -> iszero b = true -> SFeqb a b = true.
Proof. destruct a, b; try discriminate; reflexivity. Qed.

Lemma SFeqb_trans (a b c : float32) :
  SFeqb a b = true -> SFeqb b c = true -> SFeqb a c = true.
Proof.
  intros Hab Hbc.
  apply SFeqb_true in Hab as [[Za Zb]|[-> Na]];
    apply SFeqb_true in Hbc as [[Zb' Zc]|[-> Nb]].
  - now apply SFeqb_zeros.
  - now apply SFeqb_zeros.
  - now apply SFeqb_zeros.
  - now apply SFeqb_refl.
Qed.

Lemma SFeqb_notnan (a b : float32) : SFeqb a b = true -> notnan a = true.
Proof. destruct a; try reflexivity. discriminate. Qed.

Lemma SFmul_zero_finite (v : float32) :
  isfinite v = true ->
  iszero (SFmul prec32 emax32 (S754_zero false) v) = true.
Proof. destruct v; try discriminate; reflexivity. Qed.

Lemma SFadd_zeros (a b : float32) :
  iszero a = true -> iszero b = true ->
  iszero (SFadd prec32 emax32 a b) = true.
Proof.
  destruct a as [s| | |], b as [s'| | |]; try discriminate.
  now destruct s, s'.
Qed.

(** Adding a zero of either sign changes nothing that [==] can see. *)

Lemma SFadd_zero_l (z v : float32) :
  iszero z = true -> notnan v = true ->
  SFeqb (SFadd prec32 emax32 z v) v = true.
Proof.
  destruct z as [s| | |]; try discriminate.
  destruct v as [s'|s'| |s' m e]; try discriminate; intros _ _.
  - now destruct s, s'.
  - now destruct s'.
  - now apply SFeqb_refl.
Qed.

(** Indices. *)

Lemma In_range (i k : Z) : In i (range k) <-> 0 <= i < k.
Proof.
  unfold range. rewrite in_map_iff. split.
  - intros (j & <- & Hj). apply in_seq in Hj. lia.
  - intros Hi. exists (Z.to_nat i). split; [lia|]. apply in_seq. lia.
Qed.

Lemma all_indices_spec (s : shape) (P : Z -> Z -> Z -> Z -> bool) :
  all_indices s P = true
  <-> forall n c h w, in_range s n c h w -> P n c h w = true.
Proof.
  unfold all_indices, in_range. split.
  - intros Hall n c h w (Hn & Hc & Hh & Hw).
    rewrite forallb_forall in Hall.
    specialize (Hall n (proj2 (In_range _ _) Hn)).
    rewrite forallb_forall in Hall.
    specialize (Hall c (proj2 (In_range _ _) Hc)).
    rewrite forallb_forall in Hall.
    specialize (Hall h (proj2 (In_range _ _) Hh)).
    rewrite forallb_forall in Hall.
    exact (Hall w (proj2 (In_range _ _) Hw)).
  - intros HP.
    apply forallb_forall. intros n Hn. apply In_range in Hn.
    apply forallb_forall. intros c Hc. apply In_range in Hc.
    apply forallb_forall. intros h Hh. apply In_range in Hh.
    apply forallb_forall. intros w Hw. apply In_range in Hw.
    now apply HP.
Qed.

Lemma shape_eqb_eq (a b : shape) : shape_eqb a b = true <-> a = b.
Proof.
  unfold shape_eqb. destruct (list_eq_dec Z.eq_dec a b); split;
    congruence.
Qed.

Lemma torch_equal_spec (a b : tensor float32) :
  torch_equal a b = true
  <-> t_shape a = t_shape b /\
      forall n c h w, in_range (t_shape a) n c h w ->
                      SFeqb (t_at a n c h w) (t_at b n c h w) = true.
Proof.
  unfold torch_equal.
  now rewrite andb_true_iff, shape_eqb_eq, all_indices_spec.
Qed.

Lemma torch_equal_trans (a b c : tensor float32) :
  torch_equal a b = true -> torch_equal b c = true ->
  torch_equal a c = true.
Proof.
  rewrite !torch_equal_spec. intros [Sab Hab] [Sbc Hbc].
  split; [congruence|]. intros n ch h w Hr.
  apply SFeqb_trans with (t_at b n ch h w); [now apply Hab|].
  apply Hbc. now rewrite <- Sab.
Qed.

Lemma torch_equal_notnan (a b : tensor float32) :
  torch_equal a b = true -> tensor_all notnan a = true.
Proof.
  rewrite torch_equal_spec. intros [_ Hab].
  apply all_indices_spec. intros n c h w Hr.
  apply SFeqb_notnan with (t_at b n c h w). now apply Hab.
Qed.

Section FloatBlock.

Variable erf32 : float32 -> float32.

Local Notation "'F'" := (float32_Num erf32).

Lemma sum_over_zeros (k : Z) (f : Z -> float32) :
  (forall i, 0 <= i < k -> iszero (f i) = true) ->
  iszero (sum_over (H := F) k f) = true.
Proof.
  intros Hf. unfold sum_over.
  assert (Hl : forall i, In i (range k) -> iszero (f i) = true).
  { intros i Hi. apply Hf. now apply In_range. }
  clear Hf. induction (range k) as [|i l IH]; cbn [fold_right].
  - reflexivity.
  - apply SFadd_zeros.
    + apply Hl. now left.
    + apply IH. intros j Hj. apply Hl. now right.
Qed.

Lemma read_padded_finite (x : tensor float32) (n c i j : Z) :
  (forall h w, 0 <= h < height (t_shape x) -> 0 <= w < width (t_shape x) ->
               isfinite (t_at x n c h w) = true) ->
  isfinite (read_padded (H := F) x n c i j) = true.
Proof.
  intros Hx. unfold read_padded.
  destruct (Z.leb_spec 0 i), (Z.ltb_spec i (height (t_shape x))),
    (Z.leb_spec 0 j), (Z.ltb_spec j (width (t_shape x)));
    cbn [andb]; try reflexivity.
  apply Hx; lia.
Qed.

(** An ungrouped convolution whose parameters went through [zeros_] returns
    a zero (of either sign) wherever its input is finite. *)

Lemma conv2d_value_zeros (i o k s pad : Z) (bias : bool)
  (p : conv_params float32) (x y : tensor float32) :
  conv2d_value (H := F) (Conv2d i o k s pad 1 bias) (zeros_ (H := F) p) x
  = Some y ->
  tensor_all isfinite x = true ->
  forall n c h w, 0 <= n < nth 0 (t_shape x) 0 -> 0 <= c < o ->
                  iszero (t_at y n c h w) = true.
Proof.
  cbn [conv2d_value]. intros E Hfin n c h w Hn Hc.
  apply bind_Some in E as [sh [Esh E]]. injection E as <-.
  apply Conv2d_forward_inv in Esh as (n' & h' & w' & Sx & _ & _).
  cbn [t_at zeros_ cp_weight cp_bias].
  unfold tensor_all in Hfin.
  rewrite all_indices_spec in Hfin. unfold in_range in Hfin.
  rewrite Sx in Hfin, Hn. cbn [nth] in Hfin, Hn.
  rewrite !Z.div_1_r. rewrite (Z.div_small c o) by lia.
  assert (S0 : iszero
                 (sum_over (H := F) i (fun c0 =>
                    sum_over (H := F) k (fun di =>
                      sum_over (H := F) k (fun dj =>
                        mul (Num := F) (zero (Num := F))
                          (read_padded (H := F) x n (0 * i + c0)
                             (h * s + di - pad) (w * s + dj - pad))))))
               = true).
  { apply sum_over_zeros. intros c0 Hc0.
    apply sum_over_zeros. intros di _.
    apply sum_over_zeros. intros dj _.
    apply SFmul_zero_finite. apply read_padded_finite.
    intros h0 w0 Hh0 Hw0. rewrite Sx in Hh0, Hw0.
    unfold height, width in Hh0, Hw0. cbn [nth] in Hh0, Hw0.
    apply Hfin. repeat split; lia. }
  destruct (cp_bias p); [|exact S0].
  now apply SFadd_zeros.
Qed.

(** The end of [forward]: zeroed projection, then the residual sum. *)

Lemma zeroed_projection_then_add (i o : Z) (p : conv_params float32)
  (x6 x : tensor float32) (n h w : Z) :
  0 < i -> 0 < o ->
  t_shape x6 = [n; i; h; w] -> t_shape x = [n; o; h; w] ->
  1 <= h -> 1 <= w ->
  exists y,
    (x7 <- conv2d_value (H := F) (Conv2d i o 1 1 0 1 true)
             (zeros_ (H := F) p) x6 ;;
     tensor_add_value (H := F) x7 x) = Some y /\
    t_shape y = t_shape x /\
    (tensor_all isfinite x6 = true -> tensor_all notnan x = true ->
     torch_equal y x = true).
Proof.
  intros Hi Ho S6 Sx Hh Hw.
  destruct (conv2d_value_shape (H := F) i o 1 1 0 1 true
              (zeros_ (H := F) p) x6 [n; o; h; w]) as (x7 & E7 & S7).
  { rewrite S6, Conv2d_forward_ok by lia. now rewrite !conv_out_1_1_0. }
  rewrite E7. cbn [bind]. unfold tensor_add_value.
  rewrite S7, Sx, tensor_add_same. cbn [bind].
  eexists. split; [reflexivity|].
  split; [reflexivity|].
  intros Hfin Hnan. apply torch_equal_spec. cbn [t_shape t_at].
  split; [now rewrite Sx|].
  intros n0 c0 h0 w0 Hr.
  unfold tensor_all in Hnan. rewrite all_indices_spec in Hnan.
  rewrite Sx in Hnan.
  pose proof (Hnan _ _ _ _ Hr) as Hv.
  destruct Hr as (Hn0 & Hc0 & Hh0 & Hw0). cbn [nth] in Hn0, Hc0, Hh0, Hw0.
  rewrite <- Sx.
  rewrite !bidx_in_range by (rewrite Sx; assumption).
  apply SFadd_zero_l; [|exact Hv].
  apply (conv2d_value_zeros _ _ _ _ _ _ _ _ _ E7 Hfin).
  - rewrite S6. exact Hn0.
  - exact Hc0.
Qed.

Lemma forward_through_hidden
  (b : ConvNeXtblock * ConvNeXtblock_params float32) (x : tensor float32) :
  ConvNeXtblock_forward_value (H := F) b x
  = (hid <- ConvNeXtblock_hidden_value (H := F) b x ;;
     x7 <- conv2d_value (H := F) (cn_point_wise2 (fst b))
             (point_wise2_p (snd b)) hid ;;
     tensor_add_value (H := F) x7 x).
Proof.
  destruct b as [m p].
  unfold ConvNeXtblock_forward_value, ConvNeXtblock_hidden_value.
  cbn [fst snd].
  repeat match goal with
         | |- context [bind ?m _] =>
             match m with
             | conv2d_value _ _ _ => idtac
             | permute_0231_value _ => idtac
             | permute_0312_value _ => idtac
             | layer_norm_value _ _ _ _ => idtac
             end;
             destruct m; cbn [bind]; [|reflexivity]
         end.
  reflexivity.
Qed.

Lemma ConvNeXtblock_init_ok (channel : Z) :
  1 <= channel ->
  ConvNeXtblock_init channel
  = Some {| cn_depth_wise := Conv2d channel channel 7 1 3 channel true;
            cn_norm := LayerNorm channel;
            cn_point_wise1 := Conv2d channel (channel * 4) 1 1 0 1 true;
            cn_gelu := GELU;
            cn_point_wise2 := Conv2d (channel * 4) channel 1 1 0 1 true |}.
Proof.
  intros Hc. unfold ConvNeXtblock_init.
  rewrite (nn_Conv2d_ok channel channel 7 1 3 channel true)
    by (try lia; apply Z.mod_same; lia).
  unfold nn_LayerNorm.
  replace (0 <=? channel) with true by (symmetry; apply Z.leb_le; lia).
  rewrite !nn_Conv2d_plain by lia. reflexivity.
Qed.

Lemma ConvNeXtblock_init_positive (channel : Z) (m : ConvNeXtblock) :
  ConvNeXtblock_init channel = Some m -> 1 <= channel.
Proof.
  intros E. destruct (Z_lt_le_dec channel 1) as [Hc|Hc]; [|exact Hc].
  unfold ConvNeXtblock_init, nn_Conv2d in E.
  replace (0 <? channel) with false in E
    by (symmetry; apply Z.ltb_ge; lia).
  discriminate E.
Qed.

(** What a freshly built block does to a tensor of its width. *)

Lemma fresh_block_forward (channel : Z)
  (b : ConvNeXtblock * ConvNeXtblock_params float32)
  (x : tensor float32) (n h w : Z) :
  freshly_built (H := F) channel b ->
  t_shape x = [n; channel; h; w] -> 1 <= h -> 1 <= w ->
  exists hid y,
    ConvNeXtblock_hidden_value (H := F) b x = Some hid /\
    ConvNeXtblock_forward_value (H := F) b x = Some y /\
    t_shape y = t_shape x /\
    (tensor_all isfinite hid = true -> tensor_all notnan x = true ->
     torch_equal y x = true).
Proof.
  intros (d1 & d2 & d3 & b1 & b2 & b3 & Hb) Hx Hh Hw.
  unfold ConvNeXtblock_new in Hb.
  apply bind_Some in Hb as [m [Hm Hb]].
  pose proof (ConvNeXtblock_init_positive _ _ Hm) as Hc.
  rewrite ConvNeXtblock_init_ok in Hm by exact Hc.
  injection Hm as <-. injection Hb as <-.
  rewrite forward_through_hidden.
  unfold ConvNeXtblock_hidden_value.
  cbn [fst snd cn_depth_wise cn_norm cn_point_wise1 cn_point_wise2
       depth_wise_p norm_weight norm_bias point_wise1_p point_wise2_p].
  match goal with
  | |- context [conv2d_value (Conv2d channel channel 7 1 3 channel true)
                             ?p x] =>
      destruct (conv2d_value_shape (H := F) channel channel 7 1 3 channel
                  true p x [n; channel; h; w]) as (x1 & E1 & S1)
  end.
  { rewrite Hx, Conv2d_forward_ok by lia. now rewrite !conv_out_7_1_3. }
  rewrite E1. cbn [bind].
  destruct (permute_0231_value_shape x1 _ _ _ _ S1) as (x2 & E2 & S2).
  rewrite E2. cbn [bind].
  match goal with
  | |- context [layer_norm_value _ ?g ?b x2] =>
      destruct (layer_norm_value_shape (H := F) channel g b x2 _ _ _ S2)
        as (x3 & E3 & S3)
  end.
  rewrite E3. cbn [bind].
  destruct (permute_0312_value_shape x3 _ _ _ _ S3) as (x4 & E4 & S4).
  rewrite E4. cbn [bind].
  match goal with
  | |- context [conv2d_value (Conv2d channel (channel * 4) 1 1 0 1 true)
                             ?p x4] =>
      destruct (conv2d_value_shape (H := F) channel (channel * 4) 1 1 0 1
                  true p x4 [n; channel * 4; h; w]) as (x5 & E5 & S5)
  end.
  { rewrite S4, Conv2d_forward_ok by lia. now rewrite !conv_out_1_1_0. }
  rewrite E5. cbn [bind gelu_value].
  eexists.
  match goal with
  | |- context [zeros_ ?p] =>
      destruct (zeroed_projection_then_add (channel * 4) channel p
                  {| t_shape := t_shape x5;
                     t_at := fun n c h w =>
                               gelu (H := F) (t_at x5 n c h w) |}
                  x n h w) as (y & Ey & Sy & Hy)
  end; cbn [t_shape]; try assumption; try lia.
  exists y. split; [reflexivity|]. split; [exact Ey|]. split; assumption.
Qed.

End FloatBlock.

(** C2 as stated fails on float32 tensors.  On a 4x4 image whose entries
    are all 2^127, a finite float32, the depth-wise convolution of a fresh
    block with weights 1/8 sums sixteen products 2^124 and overflows to
    infinity; [LayerNorm] subtracts the mean, infinity minus infinity, and
    from there on every activation is NaN.  The zeroed projection keeps it
    (0 * NaN is NaN), so [forward] returns NaN everywhere, whatever [erf]
    is. *)
Lemma ConvNeXtblock_nan_on_finite_image :
  tensor_all isfinite huge_tensor = true /\
  forall erf32 : float32 -> float32,
    exists block y,
      huge_block erf32 = Some block /\
      ConvNeXtblock_forward_value (H := float32_Num erf32) block huge_tensor
      = Some y /\
      t_shape y = t_shape huge_tensor /\
      tensor_all isnan y = true /\
      torch_equal y huge_tensor = false.
Proof.
  split; [vm_compute; reflexivity|]. intros erf32.
  assert (E : (b <- huge_block erf32 ;;
               y <- ConvNeXtblock_forward_value (H := float32_Num erf32) b
                      huge_tensor ;;
               Some (t_shape y, tensor_all isnan y,
                     torch_equal y huge_tensor))
              = Some (t_shape huge_tensor, true, false))
    by (vm_compute; reflexivity).
  destruct (huge_block erf32) as [block|]; [|discriminate E].
  cbn [bind] in E.
  destruct (ConvNeXtblock_forward_value block huge_tensor) as [y|] eqn:Ey;
    [|discriminate E].
  cbn [bind] in E. injection E as E1 E2 E3.
  exists block, y. repeat split; first [reflexivity | assumption].
Qed.

(** C2, amended.  Right after construction, with [point_wise2] zeroed, the
    block returns a tensor of the shape of its input [x] (shape
    [n, channel, h, w], non-empty image), and that tensor equals [x] entry
    by entry whenever [x] holds no NaN and every activation that reaches
    the zeroed projection (the output of GELU) is finite.  The entries are
    float32; [erf] and the draws of the other parameters are arbitrary. *)
Theorem ConvNeXtblock_identity_on_finite_activations :
  forall (erf32 : float32 -> float32) (channel : Z)
    (draw_dw draw_pw1 draw_pw2 : Z -> Z -> Z -> Z -> float32)
    (bias_dw bias_pw1 bias_pw2 : Z -> float32)
    (x : tensor float32) (n h w : Z),
    1 <= channel ->
    t_shape x = [n; channel; h; w] -> 1 <= h -> 1 <= w ->
    exists block hid y,
      ConvNeXtblock_new (H := float32_Num erf32) channel
        draw_dw draw_pw1 draw_pw2 bias_dw bias_pw1 bias_pw2 = Some block /\
      ConvNeXtblock_hidden_value (H := float32_Num erf32) block x
      = Some hid /\
      ConvNeXtblock_forward_value (H := float32_Num erf32) block x
      = Some y /\
      t_shape y = t_shape x /\
      (tensor_all isfinite hid = true -> tensor_all notnan x = true ->
       torch_equal y x = true).
Proof.
  intros erf32 channel draw_dw draw_pw1 draw_pw2 bias_dw bias_pw1 bias_pw2
         x n h w Hc Hx Hh Hw.
  destruct (ConvNeXtblock_new (H := float32_Num erf32) channel
              draw_dw draw_pw1 draw_pw2 bias_dw bias_pw1 bias_pw2)
    as [block|] eqn:Hb.
  2:{ unfold ConvNeXtblock_new in Hb.
      rewrite ConvNeXtblock_init_ok in Hb by exact Hc. discriminate Hb. }
  exists block.
  destruct (fresh_block_forward erf32 channel block x n h w)
    as (hid & y & Ehid & Ey & Sy & Hy); try assumption.
  { now exists draw_dw, draw_pw1, draw_pw2, bias_dw, bias_pw1, bias_pw2. }
  exists hid, y. repeat split; assumption.
Qed.

Lemma ConvNeXtblock_identity_on_finite_activations_witness :
  1 <= 2 /\ t_shape sample_tensor = [1; 2; 2; 2] /\ 1 <= 2 /\
  exists block hid y,
    sample_block 0 = Some block /\
    ConvNeXtblock_hidden_value (H := float32_Num erf32) block sample_tensor
    = Some hid /\
    ConvNeXtblock_forward_value (H := float32_Num erf32) block sample_tensor
    = Some y /\
    t_shape y = t_shape sample_tensor /\
    tensor_all isfinite hid = true /\
    tensor_all iszero hid = false /\
    tensor_all notnan sample_tensor = true /\
    torch_equal y sample_tensor = true.
Proof.
  split; [lia|]. split; [reflexivity|]. split; [lia|].
  assert (E : (b <- sample_block 0 ;;
               hid <- ConvNeXtblock_hidden_value (H := float32_Num erf32) b
                        sample_tensor ;;
               Some (tensor_all isfinite hid, tensor_all iszero hid))
              = Some (true, false))
    by (vm_compute; reflexivity).
  assert (Hn : tensor_all notnan sample_tensor = true)
    by (vm_compute; reflexivity).
  destruct (ConvNeXtblock_identity_on_finite_activations erf32 2
              (fun o c i j => f32_quot (0 + 2 * o + i - j) 64)
              (fun o c _ _ => f32_quot (o - 3 * c + 0) 8)
              (fun o c _ _ => f32_quot (7 * o + c) 32)
              (fun o => f32_quot (o + 1) 16) (fun o => f32_quot (0 - o) 16)
              (fun o => f32_quot (5 + o) 16)
              sample_tensor 1 2 2)
    as (block & hid & y & Hb & Ehid & Ey & Sy & Hy);
    [lia | reflexivity | lia | lia |].
  change (sample_block 0 = Some block) in Hb.
  rewrite Hb in E. cbn [bind] in E. rewrite Ehid in E. cbn [bind] in E.
  injection E as E1 E2.
  exists block, hid, y. repeat split; try assumption.
  now apply Hy.
Defined.

(** ** Runs on concrete inputs *)

Example Resnet18_on_a_batch :
  exists net, Resnet18 10 = Some net /\
    forward true net [128; 3; 32; 32] = Some [128; 10] /\
    extract_features true net [128; 3; 32; 32] = Some [128; 512].
Proof. eexists. repeat split; reflexivity. Qed.

(** On 64x64 images the fixed 4x4 pooling of [ResBottleNecknet18] leaves
    2x2, the features have length 8192 and the classifier raises. *)

Example ResBottleNecknet18_on_64x64 :
  exists net, ResBottleNecknet18 10 = Some net /\
    extract_features false net [2; 3; 64; 64] = Some [2; 8192] /\
    forward false net [2; 3; 64; 64] = None.
Proof. eexists. repeat split; reflexivity. Qed.

Example ConvNeXt_stages :
  exists net, ConvNeXt 10 = Some net /\
    map (fun lx => (height (snd lx), channels (snd lx)))
        (trace false (net_seq net) [1; 3; 32; 32])
    = [ (32, 3); (16, 96); (16, 96); (16, 96); (8, 192); (8, 192); (8, 192);
        (4, 384); (4, 384); (4, 384); (4, 384); (4, 384); (4, 384); (4, 384);
        (2, 768); (2, 768); (2, 768) ].
Proof. eexists. split; reflexivity. Qed.

(** * Blocks on images of any size *)

Ltac size_lia :=
  unfold stage_len, half_up, strided_len, conv_out, slice_len in *;
  Z.to_euclidean_division_equations; lia.

Lemma conv_out_3_pad1 (h s : Z) : conv_out h 3 s 1 = strided_len h s.
Proof. unfold conv_out, strided_len. do 2 f_equal. lia. Qed.

Lemma conv_out_1_pad0 (h s : Z) : conv_out h 1 s 0 = strided_len h s.
Proof. unfold conv_out, strided_len. do 2 f_equal. lia. Qed.

Lemma slice_len_strided (h s : Z) : 0 < s -> slice_len h s = strided_len h s.
Proof.
  intros Hs. unfold slice_len, strided_len.
  replace (h + s - 1) with (h - 1 + 1 * s) by lia.
  now rewrite Z.div_add by lia.
Qed.

Lemma strided_len_1 (h : Z) : strided_len h 1 = h.
Proof. unfold strided_len. rewrite Z.div_1_r. lia. Qed.

Lemma strided_len_2 (h : Z) : strided_len h 2 = half_up h.
Proof. size_lia. Qed.

Lemma strided_len_pos (h s : Z) : 0 < s -> 1 <= h -> 1 <= strided_len h s.
Proof.
  intros Hs Hh. unfold strided_len.
  assert (0 <= (h - 1) / s) by (apply Z.div_pos; lia). lia.
Qed.

Lemma BatchNorm2d_forward_mode (training : bool) (c n h w : Z) :
  eval_or_batch training n ->
  BatchNorm2d_forward training c [n; c; h; w] = Some [n; c; h; w].
Proof.
  intros [->|Hn]; apply BatchNorm2d_forward_ok; [discriminate|].
  intros _ E. rewrite <- Z.mul_assoc in E. apply Z.mul_eq_1 in E. lia.
Qed.

Ltac run_layers :=
  repeat (first [ rewrite Conv2d_forward_ok by (try assumption; lia)
                | rewrite BatchNorm2d_forward_mode by assumption
                | rewrite tensor_add_same
                | rewrite LayerNorm_forward_ok ];
          rewrite ?conv_out_3_pad1, ?conv_out_1_pad0, ?conv_out_7_1_3,
                  ?conv_out_1_1_0, ?strided_len_1;
          cbn [bind F_relu permute_0231 permute_0312]).

Section BlockRuns.

Variable training : bool.
Variables n h w : Z.
Hypothesis mode : eval_or_batch training n.
Hypothesis h_pos : 1 <= h.
Hypothesis w_pos : 1 <= w.

(** [ResBottleNeckBlock], main path. *)

Lemma bottleneck_seq_run (i mid o s : Z) :
  0 < s -> 0 < i -> 0 < mid -> 0 < o ->
  module_forward training
    (Sequential
       [ Conv2d i mid 1 1 0 1 false; BatchNorm2d mid; ReLU;
         Conv2d mid mid 3 s 1 1 false; BatchNorm2d mid; ReLU;
         Conv2d mid o 1 1 0 1 false; BatchNorm2d o ]) [n; i; h; w]
  = Some [n; o; strided_len h s; strided_len w s].
Proof.
  intros Hs Hi Hm Ho.
  pose proof (strided_len_pos h s Hs h_pos).
  pose proof (strided_len_pos w s Hs w_pos).
  cbn [module_forward run_list]. run_layers. reflexivity.
Qed.

Lemma bottleneck_flagged_run (i mid o s : Z) :
  0 < s -> 0 < i -> 0 < mid -> i * identitymap_factor i o = o ->
  ResBottleNeckBlock_forward training
    {| bb_stride := s; bb_in_channel := i; bb_out_channel := o;
       bb_seq :=
         Sequential
           [ Conv2d i mid 1 1 0 1 false; BatchNorm2d mid; ReLU;
             Conv2d mid mid 3 s 1 1 false; BatchNorm2d mid; ReLU;
             Conv2d mid o 1 1 0 1 false; BatchNorm2d o ];
       bb_downsample := Bound_identitymap |} [n; i; h; w]
  = Some [n; o; strided_len h s; strided_len w s].
Proof.
  intros Hs Hi Hm Hio.
  assert (Ho : 0 < o).
  { rewrite <- Hio. apply Z.mul_pos_pos; [assumption|].
    unfold identitymap_factor. apply Z.pow_pos_nonneg; lia. }
  unfold ResBottleNeckBlock_forward, ResBottleNeckBlock_downsample.
  cbn [bb_seq bb_downsample]. rewrite bottleneck_seq_run by assumption.
  cbn [bind].
  rewrite identitymap_shape by (cbn [bb_stride bb_in_channel]; lia).
  cbn [bb_stride bb_in_channel bb_out_channel bind].
  fold (identitymap_factor i o). rewrite Hio.
  rewrite !slice_len_strided by assumption.
  now rewrite tensor_add_same.
Qed.

Lemma bottleneck_plain_run (i mid : Z) :
  0 < i -> 0 < mid ->
  ResBottleNeckBlock_forward training
    {| bb_stride := 1; bb_in_channel := i; bb_out_channel := i;
       bb_seq :=
         Sequential
           [ Conv2d i mid 1 1 0 1 false; BatchNorm2d mid; ReLU;
             Conv2d mid mid 3 1 1 1 false; BatchNorm2d mid; ReLU;
             Conv2d mid i 1 1 0 1 false; BatchNorm2d i ];
       bb_downsample := Module_fn Identity |} [n; i; h; w]
  = Some [n; i; h; w].
Proof.
  intros Hi Hm.
  unfold ResBottleNeckBlock_forward, ResBottleNeckBlock_downsample.
  cbn [bb_seq bb_downsample]. rewrite bottleneck_seq_run by lia.
  rewrite !strided_len_1. cbn [bind module_forward].
  now rewrite tensor_add_same.
Qed.

(** [PreActResBlock]. *)

Lemma preact_seq_run (i o s : Z) :
  0 < s -> 0 < i -> 0 < o ->
  module_forward training
    (Sequential
       [ BatchNorm2d i; ReLU; Conv2d i o 3 s 1 1 false;
         BatchNorm2d o; ReLU; Conv2d o o 3 1 1 1 false ]) [n; i; h; w]
  = Some [n; o; strided_len h s; strided_len w s].
Proof.
  intros Hs Hi Ho.
  pose proof (strided_len_pos h s Hs h_pos).
  pose proof (strided_len_pos w s Hs w_pos).
  cbn [module_forward run_list]. run_layers. reflexivity.
Qed.

Lemma PreActResBlock_identitymap_shape (c : Z) :
  PreActResBlock_identitymap [n; c; h; w]
  = Some [n; c + c; strided_len h 2; strided_len w 2].
Proof.
  unfold PreActResBlock_identitymap. cbn [strided_slice].
  change (0 <? 2) with true. cbn [bind concat_zeros_like].
  now rewrite !slice_len_strided by lia.
Qed.

Lemma preact_flagged_run (i o : Z) :
  0 < i -> i + i = o ->
  PreActResBlock_forward training
    {| pa_seq :=
         Sequential
           [ BatchNorm2d i; ReLU; Conv2d i o 3 2 1 1 false;
             BatchNorm2d o; ReLU; Conv2d o o 3 1 1 1 false ];
       pa_downsample := Bound_identitymap |} [n; i; h; w]
  = Some [n; o; half_up h; half_up w].
Proof.
  intros Hi Hio.
  unfold PreActResBlock_forward, PreActResBlock_downsample.
  cbn [pa_seq pa_downsample]. rewrite preact_seq_run by lia.
  cbn [bind]. rewrite PreActResBlock_identitymap_shape, Hio. cbn [bind].
  rewrite tensor_add_same. now rewrite !strided_len_2.
Qed.

Lemma preact_plain_run (i : Z) :
  0 < i ->
  PreActResBlock_forward training
    {| pa_seq :=
         Sequential
           [ BatchNorm2d i; ReLU; Conv2d i i 3 1 1 1 false;
             BatchNorm2d i; ReLU; Conv2d i i 3 1 1 1 false ];
       pa_downsample := Module_fn Identity |} [n; i; h; w]
  = Some [n; i; h; w].
Proof.
  intros Hi.
  unfold PreActResBlock_forward, PreActResBlock_downsample.
  cbn [pa_seq pa_downsample]. rewrite preact_seq_run by lia.
  rewrite !strided_len_1. cbn [bind module_forward].
  now rewrite tensor_add_same.
Qed.

(** [ResNextBlock]. *)

Lemma resnext_seq_run (i inner o card s : Z) :
  0 < s -> 0 < i -> 0 < inner -> 0 < o ->
  module_forward training
    (Sequential
       [ Conv2d i inner 1 1 0 1 false; BatchNorm2d inner; ReLU;
         Conv2d inner inner 3 s 1 card false; BatchNorm2d inner; ReLU;
         Conv2d inner o 1 1 0 1 false; BatchNorm2d o ]) [n; i; h; w]
  = Some [n; o; strided_len h s; strided_len w s].
Proof.
  intros Hs Hi Hm Ho.
  pose proof (strided_len_pos h s Hs h_pos).
  pose proof (strided_len_pos w s Hs w_pos).
  cbn [module_forward run_list]. run_layers. reflexivity.
Qed.

Lemma projection_run (i o s : Z) :
  0 < s -> 0 < i -> 0 < o ->
  module_forward training
    (Sequential [ Conv2d i o 1 s 0 1 false; BatchNorm2d o ]) [n; i; h; w]
  = Some [n; o; strided_len h s; strided_len w s].
Proof.
  intros Hs Hi Ho. cbn [module_forward run_list]. run_layers. reflexivity.
Qed.

Lemma resnext_flagged_run (i inner o card s : Z) :
  0 < s -> 0 < i -> 0 < inner -> 0 < o ->
  ResNextBlock_forward training
    {| rn_seq :=
         Sequential
           [ Conv2d i inner 1 1 0 1 false; BatchNorm2d inner; ReLU;
             Conv2d inner inner 3 s 1 card false; BatchNorm2d inner; ReLU;
             Conv2d inner o 1 1 0 1 false; BatchNorm2d o ];
       rn_downsample :=
         Sequential [ Conv2d i o 1 s 0 1 false; BatchNorm2d o ] |}
    [n; i; h; w]
  = Some [n; o; strided_len h s; strided_len w s].
Proof.
  intros Hs Hi Hm Ho. unfold ResNextBlock_forward.
  cbn [rn_seq rn_downsample].
  rewrite resnext_seq_run, projection_run by assumption. cbn [bind].
  now rewrite tensor_add_same.
Qed.

Lemma resnext_plain_run (i inner card : Z) :
  0 < i -> 0 < inner ->
  ResNextBlock_forward training
    {| rn_seq :=
         Sequential
           [ Conv2d i inner 1 1 0 1 false; BatchNorm2d inner; ReLU;
             Conv2d inner inner 3 1 1 card false; BatchNorm2d inner; ReLU;
             Conv2d inner i 1 1 0 1 false; BatchNorm2d i ];
       rn_downsample := Identity |} [n; i; h; w]
  = Some [n; i; h; w].
Proof.
  intros Hi Hm.
  unfold ResNextBlock_forward. cbn [rn_seq rn_downsample].
  rewrite resnext_seq_run by lia. rewrite !strided_len_1.
  cbn [bind module_forward]. now rewrite tensor_add_same.
Qed.

(** [ConvNeXtblock]. *)

Lemma convnext_block_run (c c4 : Z) :
  0 < c -> 0 < c4 ->
  ConvNeXtblock_forward training
    {| cn_depth_wise := Conv2d c c 7 1 3 c true;
       cn_norm := LayerNorm c;
       cn_point_wise1 := Conv2d c c4 1 1 0 1 true;
       cn_gelu := GELU;
       cn_point_wise2 := Conv2d c4 c 1 1 0 1 true |} [n; c; h; w]
  = Some [n; c; h; w].
Proof.
  intros Hc Hc4.
  unfold ConvNeXtblock_forward, ConvNeXtblock_main.
  cbn [cn_depth_wise cn_norm cn_point_wise1 cn_gelu cn_point_wise2
       module_forward].
  run_layers. reflexivity.
Qed.

End BlockRuns.

(** * The networks on images of any size *)

Lemma Conv2d_forward_small (i o k s p n c h w : Z) :
  h + 2 * p < k \/ w + 2 * p < k ->
  Conv2d_forward i o k s p [n; c; h; w] = None.
Proof.
  intros Hs. unfold Conv2d_forward.
  destruct (c =? i), (0 <? i), (0 <? o), (0 <? s); cbn [andb];
    try reflexivity.
  destruct (Z.leb_spec k (h + 2 * p)), (Z.leb_spec k (w + 2 * p));
    cbn [andb]; try reflexivity; lia.
Qed.

Lemma conv_out_pool (a k : Z) : 0 < k -> conv_out a k k 0 = a / k.
Proof.
  intros Hk. unfold conv_out.
  replace (a + 2 * 0 - k) with (a + (-1) * k) by lia.
  rewrite Z.div_add by lia. lia.
Qed.

Lemma AvgPool2d_forward_ok (k n c a b : Z) :
  0 < k -> k <= a -> k <= b ->
  AvgPool2d_forward k [n; c; a; b] = Some [n; c; a / k; b / k].
Proof.
  intros Hk Ha Hb. unfold AvgPool2d_forward.
  apply Z.ltb_lt in Hk as Hk'. apply Z.leb_le in Ha, Hb.
  rewrite Hk', Ha, Hb. cbn [andb]. now rewrite !conv_out_pool.
Qed.

Lemma AvgPool2d_forward_small (k n c a b : Z) :
  a < k \/ b < k -> AvgPool2d_forward k [n; c; a; b] = None.
Proof.
  intros Hs. unfold AvgPool2d_forward.
  destruct (0 <? k); cbn [andb]; try reflexivity.
  destruct (Z.leb_spec k a), (Z.leb_spec k b);
    cbn [andb]; try reflexivity; lia.
Qed.

Lemma Flatten_forward_image (n c a b : Z) :
  Flatten_forward [n; c; a; b] = Some [n; c * (a * b)].
Proof.
  unfold Flatten_forward, numel. cbn [fold_right].
  now rewrite Z.mul_1_r.
Qed.

Lemma Linear_forward_features (i o n f : Z) :
  Linear_forward i o [n; f] = if f =? i then Some [n; o] else None.
Proof. reflexivity. Qed.

Lemma one_cell (C p q : Z) :
  0 < C -> 1 <= p -> 1 <= q -> C * (p * q) = C -> p = 1 /\ q = 1.
Proof.
  intros HC Hp Hq E.
  assert (E1 : p * q = 1).
  { apply (Z.mul_reg_l _ _ C); lia. }
  pose proof (Z.mul_eq_1 _ _ E1).
  rewrite Z.mul_comm in E1. pose proof (Z.mul_eq_1 _ _ E1). lia.
Qed.

(** The end of every fixed-pool network: pooling with kernel [k], flatten,
    and a classifier that expects one pooled cell per channel. *)

Lemma pooled_head (k C class_num n a b : Z) :
  0 < k -> 0 < C ->
  (y <- (y <- AvgPool2d_forward k [n; C; a; b] ;; Some y) ;;
   f <- Flatten_forward y ;; Linear_forward C class_num f)
  = if (k <=? a) && (a <? 2 * k) && (k <=? b) && (b <? 2 * k)
    then Some [n; class_num] else None.
Proof.
  intros Hk HC.
  destruct (Z.leb_spec k a) as [Ha|Ha]; cbn [andb].
  2:{ rewrite AvgPool2d_forward_small by lia. reflexivity. }
  destruct (Z.leb_spec k b) as [Hb|Hb].
  2:{ rewrite AvgPool2d_forward_small by lia.
      now rewrite andb_false_r. }
  rewrite AvgPool2d_forward_ok by assumption. cbn [bind].
  rewrite Flatten_forward_image. cbn [bind].
  rewrite Linear_forward_features.
  assert (Pa : 1 <= a / k) by (apply Z.div_le_lower_bound; lia).
  assert (Pb : 1 <= b / k) by (apply Z.div_le_lower_bound; lia).
  destruct (Z.ltb_spec a (2 * k)) as [La|La];
    destruct (Z.ltb_spec b (2 * k)) as [Lb|Lb]; cbn [andb].
  - assert (a / k < 2) by (apply Z.div_lt_upper_bound; lia).
    assert (b / k < 2) by (apply Z.div_lt_upper_bound; lia).
    replace (a / k) with 1 by lia. replace (b / k) with 1 by lia.
    replace (C * (1 * 1)) with C by lia. now rewrite Z.eqb_refl.
  - assert (2 <= b / k) by (apply Z.div_le_lower_bound; lia).
    destruct (Z.eqb_spec (C * (a / k * (b / k))) C) as [E|]; [|reflexivity].
    apply one_cell in E; lia.
  - assert (2 <= a / k) by (apply Z.div_le_lower_bound; lia).
    destruct (Z.eqb_spec (C * (a / k * (b / k))) C) as [E|]; [|reflexivity].
    apply one_cell in E; lia.
  - assert (2 <= a / k) by (apply Z.div_le_lower_bound; lia).
    destruct (Z.eqb_spec (C * (a / k * (b / k))) C) as [E|]; [|reflexivity].
    apply one_cell in E; lia.
Qed.

Lemma pooled_features (k C n a b : Z) :
  0 < k ->
  (y <- (y <- AvgPool2d_forward k [n; C; a; b] ;; Some y) ;;
   Flatten_forward y)
  = if (k <=? a) && (k <=? b)
    then Some [n; C * (a / k * (b / k))] else None.
Proof.
  intros Hk.
  destruct (Z.leb_spec k a) as [Ha|Ha]; cbn [andb].
  2:{ rewrite AvgPool2d_forward_small by lia. reflexivity. }
  destruct (Z.leb_spec k b) as [Hb|Hb].
  2:{ rewrite AvgPool2d_forward_small by lia. reflexivity. }
  rewrite AvgPool2d_forward_ok by assumption. cbn [bind].
  apply Flatten_forward_image.
Qed.

Ltac size_pos := repeat apply half_up_pos; lia.

Ltac block_side :=
  first [ assumption | reflexivity | lia | size_pos ].

Ltac run_blocks :=
  repeat (first
            [ rewrite Conv2d_forward_ok
                by (try assumption; first [lia | size_pos])
            | rewrite BatchNorm2d_forward_mode by assumption
            | rewrite bottleneck_flagged_run by block_side
            | rewrite bottleneck_plain_run by block_side
            | rewrite preact_flagged_run by block_side
            | rewrite preact_plain_run by block_side
            | rewrite resnext_flagged_run by block_side
            | rewrite resnext_plain_run by block_side
            | rewrite convnext_block_run by block_side ];
          rewrite ?conv_out_3_pad1, ?strided_len_1, ?strided_len_2;
          cbn [bind]).

Ltac open_run :=
  build_net; unfold forward, extract_features;
  cbn [net_seq net_flat net_out run_list layer_forward module_forward].

Ltac decide_tests :=
  repeat match goal with
         | |- context [?a <=? ?b] => destruct (Z.leb_spec a b)
         | |- context [?a <? ?b] => destruct (Z.ltb_spec a b)
         end;
  cbn [andb]; first [ reflexivity | exfalso; size_lia ].

Ltac small_image :=
  rewrite Conv2d_forward_small by lia; cbn [bind];
  repeat split; intros; first [ reflexivity | lia ].

Ltac pool4_case H W :=
  open_run;
  destruct (Z_lt_le_dec H 1); [ small_image | ];
  destruct (Z_lt_le_dec W 1); [ small_image | ];
  run_blocks; fold (stage_len H); fold (stage_len W);
  rewrite pooled_head, pooled_features by lia;
  repeat split; intros; decide_tests.

(** X1.  The four networks that end in [AvgPool2d(4)] accept exactly the
    images whose sides lie between 25 and 56: there [forward] returns
    [N, class_num], and on every other size it raises (the pooling window
    does not fit, or the classifier meets more than one pooled cell per
    channel).  [extract_features] raises below 25 and returns
    F * (ceil(H/8) // 4) * (ceil(W/8) // 4) features from 25 on. *)
Theorem pool4_networks_accepted_sizes :
  forall mk F, In (mk, F) pool4_networks ->
  forall (training : bool) (class_num N H W : Z),
    1 <= class_num -> eval_or_batch training N ->
    exists net, mk class_num = Some net /\
      (25 <= H <= 56 -> 25 <= W <= 56 ->
       forward training net [N; 3; H; W] = Some [N; class_num]) /\
      (H < 25 \/ 56 < H \/ W < 25 \/ 56 < W ->
       forward training net [N; 3; H; W] = None) /\
      (25 <= H -> 25 <= W ->
       extract_features training net [N; 3; H; W]
       = Some [N; F * (stage_len H / 4 * (stage_len W / 4))]) /\
      (H < 25 \/ W < 25 ->
       extract_features training net [N; 3; H; W] = None).
Proof.
  intros mk F Hin training class_num N H W Hc Hm. simpl in Hin.
  destruct Hin as [E|[E|[E|[E|[]]]]]; injection E as <- <-.
  all: pool4_case H W.
Qed.

Ltac small_stage :=
  rewrite Conv2d_forward_small by lia; cbn [bind];
  repeat split; intros; first [ reflexivity | exfalso; size_lia ].

Ltac convnext_stage h w :=
  destruct (Z_lt_le_dec h 2); [ small_stage | ];
  destruct (Z_lt_le_dec w 2); [ small_stage | ];
  rewrite Conv2d_forward_ok by lia;
  rewrite !conv_out_pool by lia; cbn [bind];
  assert (1 <= h / 2) by size_lia;
  assert (1 <= w / 2) by size_lia;
  repeat (rewrite convnext_block_run by first [assumption | lia];
          cbn [bind]).

Lemma five_halvings (h : Z) : h / 2 / 2 / 2 / 2 / 2 = h / 32.
Proof. size_lia. Qed.

(** X2.  [ConvNeXt] halves the image four times with 2x2 stride-2
    convolutions (rounding down) and ends in [AvgPool2d(2)]: it accepts
    exactly the images whose sides lie between 32 and 63, whatever the mode
    and the batch size.  [extract_features] raises below 32 and returns
    768 * (H // 32) * (W // 32) features from 32 on. *)
Theorem ConvNeXt_accepted_sizes :
  forall (training : bool) (class_num N H W : Z),
    1 <= class_num ->
    exists net, ConvNeXt class_num = Some net /\
      (32 <= H <= 63 -> 32 <= W <= 63 ->
       forward training net [N; 3; H; W] = Some [N; class_num]) /\
      (H < 32 \/ 63 < H \/ W < 32 \/ 63 < W ->
       forward training net [N; 3; H; W] = None) /\
      (32 <= H -> 32 <= W ->
       extract_features training net [N; 3; H; W]
       = Some [N; 768 * (H / 32 * (W / 32))]) /\
      (H < 32 \/ W < 32 ->
       extract_features training net [N; 3; H; W] = None).
Proof.
  intros training class_num N H W Hc. open_run.
  convnext_stage H W.
  convnext_stage (H / 2) (W / 2).
  convnext_stage (H / 2 / 2) (W / 2 / 2).
  convnext_stage (H / 2 / 2 / 2) (W / 2 / 2 / 2).
  rewrite pooled_head, pooled_features by lia.
  repeat split; intros;
    repeat match goal with
           | |- context [?a <=? ?b] => destruct (Z.leb_spec a b)
           | |- context [?a <? ?b] => destruct (Z.ltb_spec a b)
           end;
    cbn [andb];
    first [ reflexivity | exfalso; size_lia
          | rewrite !five_halvings; reflexivity ].
Qed.

Lemma ConvNeXt_accepted_sizes_witness :
  1 <= 10 /\
  exists net, ConvNeXt 10 = Some net /\
    (32 <= 48 <= 63 -> 32 <= 40 <= 63 ->
     forward true net [1; 3; 48; 40] = Some [1; 10]) /\
    (48 < 32 \/ 63 < 48 \/ 40 < 32 \/ 63 < 40 ->
     forward true net [1; 3; 48; 40] = None) /\
    (32 <= 48 -> 32 <= 40 ->
     extract_features true net [1; 3; 48; 40]
     = Some [1; 768 * (48 / 32 * (40 / 32))]) /\
    (48 < 32 \/ 40 < 32 ->
     extract_features true net [1; 3; 48; 40] = None).
Proof.
  split; [lia|]. apply (ConvNeXt_accepted_sizes true 10 1 48 40). lia.
Defined.

Lemma pool4_networks_accepted_sizes_witness :
  In (ResBottleNecknet50, 2048) pool4_networks /\ 1 <= 10 /\
  eval_or_batch false 1 /\
  exists net, ResBottleNecknet50 10 = Some net /\
    (25 <= 64 <= 56 -> 25 <= 40 <= 56 ->
     forward false net [1; 3; 64; 40] = Some [1; 10]) /\
    (64 < 25 \/ 56 < 64 \/ 40 < 25 \/ 56 < 40 ->
     forward false net [1; 3; 64; 40] = None) /\
    (25 <= 64 -> 25 <= 40 ->
     extract_features false net [1; 3; 64; 40]
     = Some [1; 2048 * (stage_len 64 / 4 * (stage_len 40 / 4))]) /\
    (64 < 25 \/ 40 < 25 ->
     extract_features false net [1; 3; 64; 40] = None).
Proof.
  assert (Hin : In (ResBottleNecknet50, 2048) pool4_networks)
    by (simpl; tauto).
  assert (Hm : eval_or_batch false 1) by (left; reflexivity).
  split; [exact Hin|]. split; [lia|]. split; [exact Hm|].
  apply (pool4_networks_accepted_sizes ResBottleNecknet50 2048 Hin
           false 10 1 64 40); [lia | exact Hm].
Defined.

(** * Which channel pairs the blocks accept *)

Lemma pow2_gt_odd (m : Z) : 3 <= m -> 2 * m + 1 < 2 ^ m.
Proof.
  intros Hm. pattern m. apply Z.le_ind with (n := 3); [ | | | exact Hm ].
  - intros x y ->. reflexivity.
  - reflexivity.
  - intros k Hk IH. rewrite Z.pow_succ_r by lia. lia.
Qed.

(** The loop count [ratio // 2] gives the right number of doublings for
    the ratios 1, 2 and 4 and for no other channel pair. *)

Lemma identitymap_factor_fits (i o : Z) :
  1 <= i -> 1 <= o ->
  (i * identitymap_factor i o = o <-> o = i \/ o = 2 * i \/ o = 4 * i).
Proof.
  intros Hi Ho. unfold identitymap_factor. split.
  - intros E.
    assert (Hd : 0 <= o / i) by (apply Z.div_pos; lia).
    assert (Hm : 0 <= o / i / 2) by (apply Z.div_pos; lia).
    rewrite Z2Nat.id in E by exact Hm.
    assert (Ed : o / i = 2 ^ (o / i / 2)).
    { rewrite <- E at 1. rewrite Z.mul_comm. apply Z.div_mul. lia. }
    set (d := o / i) in *.
    destruct (Z_lt_le_dec (d / 2) 3) as [Hs|Hb].
    + assert (Hc : d / 2 = 0 \/ d / 2 = 1 \/ d / 2 = 2) by lia.
      clear Ed. clearbody d.
      destruct Hc as [Hc|[Hc|Hc]]; rewrite Hc in E;
        [ change (2 ^ 0) with 1 in E | change (2 ^ 1) with 2 in E
        | change (2 ^ 2) with 4 in E ]; lia.
    + pose proof (pow2_gt_odd (d / 2) Hb) as Hp.
      rewrite <- Ed in Hp. exfalso. clear - Hp. size_lia.
  - intros [-> | [-> | ->]].
    + rewrite Z.div_same by lia. change (1 / 2) with 0.
      change (2 ^ Z.of_nat (Z.to_nat 0)) with 1. lia.
    + rewrite Z.div_mul by lia. change (2 / 2) with 1.
      change (2 ^ Z.of_nat (Z.to_nat 1)) with 2. lia.
    + rewrite Z.div_mul by lia. change (4 / 2) with 2.
      change (2 ^ Z.of_nat (Z.to_nat 2)) with 4. lia.
Qed.

Lemma identitymap_factor_pos (i o : Z) : 0 < identitymap_factor i o.
Proof. unfold identitymap_factor. apply Z.pow_pos_nonneg; lia. Qed.

Lemma identitymap_factor_not_unit (i o : Z) :
  1 <= i -> 4 <= o -> i * identitymap_factor i o <> 1.
Proof.
  intros Hi Ho E. pose proof (identitymap_factor_pos i o) as Hp.
  assert (i = 1) by nia. subst i.
  unfold identitymap_factor in *. rewrite Z.div_1_r in *.
  assert (2 <= o / 2) by (apply Z.div_le_lower_bound; lia).
  rewrite Z2Nat.id in E by lia.
  assert (2 ^ 1 <= 2 ^ (o / 2)) by (apply Z.pow_le_mono_r; lia).
  change (2 ^ 1) with 2 in *. lia.
Qed.

(** X3.  In evaluation mode, or on a batch of at least two images, a
    [ResBottleNeckBlock] built with [is_downsample] ([in_channel >= 1],
    [out_channel >= 4]) works exactly for the channel ratios 1, 2 and 4:
    then [forward] maps [n, in, h, w] to [n, out, (h-1)//s + 1, (w-1)//s + 1]
    for its stride [s], main path and zero-padding shortcut agreeing on
    every image size; for every other pair [forward] raises on every
    input, in either mode. *)
Theorem bottleneck_accepted_ratios :
  forall (training : bool) (i o : Z) (stride : option Z) (n h w : Z),
    1 <= i -> 4 <= o -> 0 < given_stride true stride ->
    1 <= h -> 1 <= w -> eval_or_batch training n ->
    exists b, ResBottleNeckBlock_init i o true stride = Some b /\
      (o = i \/ o = 2 * i \/ o = 4 * i ->
       ResBottleNeckBlock_forward training b [n; i; h; w]
       = Some [n; o; strided_len h (given_stride true stride);
               strided_len w (given_stride true stride)]) /\
      (~ (o = i \/ o = 2 * i \/ o = 4 * i) ->
       forall x, ResBottleNeckBlock_forward training b x = None).
Proof.
  intros training i o stride n h w Hi Ho Hs Hh Hw Hm.
  rewrite ResBottleNeckBlock_init_ok by lia.
  eexists. split; [reflexivity|]. split.
  - intros Hr. apply bottleneck_flagged_run; try assumption; try lia;
      first [ apply Z.div_str_pos; lia
            | apply identitymap_factor_fits; assumption || lia ].
  - intros Hr x.
    unfold ResBottleNeckBlock_forward. cbn [bb_seq].
    destruct (module_forward training _ x) as [y|] eqn:E; [|reflexivity].
    apply bottleneck_main_shape in E
      as (Hs' & n' & h' & w' & h'' & w'' & -> & ->).
    cbn [bind]. unfold ResBottleNeckBlock_downsample. cbn [bb_downsample].
    rewrite identitymap_shape by (cbn; lia).
    cbn [bind bb_stride bb_in_channel bb_out_channel].
    fold (identitymap_factor i o).
    pose proof (identitymap_factor_pos i o) as Hp.
    rewrite tensor_add_channel_mismatch; [reflexivity | | lia | ].
    + intros E. apply Hr. apply identitymap_factor_fits; auto; lia.
    + intros E. exfalso. apply (identitymap_factor_not_unit i o); assumption.
Qed.

Lemma bottleneck_accepted_ratios_witness :
  1 <= 16 /\ 4 <= 128 /\ 0 < given_stride true (Some 3) /\
  1 <= 10 /\ 1 <= 7 /\ eval_or_batch true 2 /\
  exists b, ResBottleNeckBlock_init 16 128 true (Some 3) = Some b /\
    (128 = 16 \/ 128 = 2 * 16 \/ 128 = 4 * 16 ->
     ResBottleNeckBlock_forward true b [2; 16; 10; 7]
     = Some [2; 128; strided_len 10 (given_stride true (Some 3));
             strided_len 7 (given_stride true (Some 3))]) /\
    (~ (128 = 16 \/ 128 = 2 * 16 \/ 128 = 4 * 16) ->
     forall x, ResBottleNeckBlock_forward true b x = None).
Proof.
  assert (Hm : eval_or_batch true 2) by (right; lia).
  repeat (split; [first [lia | reflexivity | exact Hm]|]).
  apply (bottleneck_accepted_ratios true 16 128 (Some 3) 2 10 7);
    first [lia | reflexivity | exact Hm].
Defined.

(** [PreActResBlock]. *)

Lemma PreActResBlock_init_ok (i o : Z) (ds : bool) :
  0 <= i -> 0 <= o ->
  PreActResBlock_init i o ds
  = Some {| pa_seq :=
              Sequential
                [ BatchNorm2d i; ReLU;
                  Conv2d i o 3 (if ds then 2 else 1) 1 1 false;
                  BatchNorm2d o; ReLU; Conv2d o o 3 1 1 1 false ];
            pa_downsample :=
              if ds then Bound_identitymap else Module_fn Identity |}.
Proof.
  intros Pi Po. unfold PreActResBlock_init. construct. reflexivity.
Qed.

Lemma preact_main_shape (training : bool) (i o s : Z) (x y : shape) :
  module_forward training
    (Sequential
       [ BatchNorm2d i; ReLU; Conv2d i o 3 s 1 1 false;
         BatchNorm2d o; ReLU; Conv2d o o 3 1 1 1 false ]) x = Some y ->
  exists n h w h' w', x = [n; i; h; w] /\ y = [n; o; h'; w'].
Proof.
  cbn [module_forward run_list]. intros E.
  apply bind_Some in E as [x1 [E1 E]].
  apply BatchNorm2d_forward_inv in E1 as [-> (n & h & w & ->)].
  cbn [bind] in E.
  apply bind_Some in E as [x2 [E2 E]].
  apply Conv2d_forward_inv in E2 as (? & ? & ? & [= <- <- <-] & _ & ->).
  apply bind_Some in E as [x3 [E3 E]].
  apply BatchNorm2d_forward_inv in E3 as [-> _].
  cbn [bind] in E.
  apply bind_Some in E as [x4 [E4 E]].
  apply Conv2d_forward_inv in E4 as (? & ? & ? & [= <- <- <-] & _ & ->).
  injection E as <-. now eexists n, h, w, _, _.
Qed.

(** X4.  A [PreActResBlock] built with [is_downsample] ([in_channel >= 1])
    always doubles the channels on its shortcut.  With
    [out_channel = 2 * in_channel] it maps [n, in, h, w] to
    [n, out, ceil(h/2), ceil(w/2)] on every image size, in evaluation mode
    or on a batch of at least two images; with any other
    [out_channel >= 2] it raises on every input, in either mode. *)
Theorem PreActResBlock_doubles_channels :
  forall (training : bool) (i o n h w : Z),
    1 <= i -> 2 <= o -> 1 <= h -> 1 <= w -> eval_or_batch training n ->
    exists b, PreActResBlock_init i o true = Some b /\
      (o = 2 * i ->
       PreActResBlock_forward training b [n; i; h; w]
       = Some [n; o; half_up h; half_up w]) /\
      (o <> 2 * i ->
       forall x, PreActResBlock_forward training b x = None).
Proof.
  intros training i o n h w Hi Ho Hh Hw Hm.
  rewrite PreActResBlock_init_ok by lia.
  eexists. split; [reflexivity|]. split.
  - intros Hr. apply preact_flagged_run; try assumption; lia.
  - intros Hr x. unfold PreActResBlock_forward. cbn [pa_seq].
    destruct (module_forward training _ x) as [y|] eqn:E; [|reflexivity].
    apply preact_main_shape in E as (n' & h' & w' & h'' & w'' & -> & ->).
    cbn [bind]. unfold PreActResBlock_downsample. cbn [pa_downsample].
    unfold PreActResBlock_identitymap. cbn [strided_slice].
    change (0 <? 2) with true. cbn [bind concat_zeros_like].
    apply tensor_add_channel_mismatch; lia.
Qed.

Lemma PreActResBlock_doubles_channels_witness :
  1 <= 64 /\ 2 <= 128 /\ 1 <= 33 /\ 1 <= 1 /\ eval_or_batch false 1 /\
  exists b, PreActResBlock_init 64 128 true = Some b /\
    (128 = 2 * 64 ->
     PreActResBlock_forward false b [1; 64; 33; 1]
     = Some [1; 128; half_up 33; half_up 1]) /\
    (128 <> 2 * 64 ->
     forall x, PreActResBlock_forward false b x = None).
Proof.
  assert (Hm : eval_or_batch false 1) by (left; reflexivity).
  repeat (split; [first [lia | exact Hm]|]).
  apply (PreActResBlock_doubles_channels false 64 128 1 33 1);
    first [lia | exact Hm].
Defined.

(** [ResBlock] with the identity shortcut. *)

Lemma resblock_seq_run (training : bool) (i o s n h w : Z) :
  eval_or_batch training n -> 1 <= h -> 1 <= w -> 0 < s ->
  0 < i -> 0 < o ->
  module_forward training
    (Sequential
       [ Conv2d i o 3 s 1 1 false; BatchNorm2d o; ReLU;
         Conv2d o o 3 1 1 1 false; BatchNorm2d o ]) [n; i; h; w]
  = Some [n; o; strided_len h s; strided_len w s].
Proof.
  intros Hm Hh Hw Hs Hi Ho.
  pose proof (strided_len_pos h s Hs Hh).
  pose proof (strided_len_pos w s Hs Hw).
  cbn [module_forward run_list]. run_layers. reflexivity.
Qed.

Lemma resblock_main_shape (training : bool) (i o s : Z) (x y : shape) :
  module_forward training
    (Sequential
       [ Conv2d i o 3 s 1 1 false; BatchNorm2d o; ReLU;
         Conv2d o o 3 1 1 1 false; BatchNorm2d o ]) x = Some y ->
  exists n h w h' w', x = [n; i; h; w] /\ y = [n; o; h'; w'].
Proof.
  cbn [module_forward run_list]. intros E.
  apply bind_Some in E as [x1 [E1 E]].
  apply Conv2d_forward_inv in E1 as (n & h & w & -> & _ & ->).
  apply bind_Some in E as [x2 [E2 E]].
  apply BatchNorm2d_forward_inv in E2 as [-> _].
  cbn [bind] in E.
  apply bind_Some in E as [x3 [E3 E]].
  apply Conv2d_forward_inv in E3 as (? & ? & ? & [= <- <- <-] & _ & ->).
  apply bind_Some in E as [x4 [E4 E]].
  apply BatchNorm2d_forward_inv in E4 as [-> _].
  injection E as <-. now eexists n, h, w, _, _.
Qed.

Lemma tensor_add_broadcast_right (n a h w : Z) :
  tensor_add [n; a; h; w] [n; 1; h; w] = Some [n; a; h; w].
Proof.
  unfold tensor_add. cbn [rev app broadcast_rev bind].
  rewrite !Z.eqb_refl. cbn [bind].
  destruct (a =? 1); reflexivity.
Qed.

Lemma tensor_add_broadcast_left (n b h w : Z) :
  tensor_add [n; 1; h; w] [n; b; h; w] = Some [n; b; h; w].
Proof.
  unfold tensor_add. cbn [rev app broadcast_rev bind].
  rewrite !Z.eqb_refl. cbn [bind].
  destruct (Z.eqb_spec 1 b) as [<-|]; reflexivity.
Qed.

(** X5.  A [ResBlock] built without [is_downsample], with positive channel
    counts, adds its input to the main path unchanged.  In evaluation
    mode, or on a batch of at least two images: with equal channel counts
    it maps [n, c, h, w] to itself in shape, and when one of the two counts
    is 1 the sum broadcasts, silently, and the output has the larger
    channel count.  With different counts, neither of them 1, it raises on
    every input, in either mode. *)
Theorem ResBlock_identity_shortcut :
  forall (training : bool) (i o n h w : Z),
    1 <= i -> 1 <= o -> 1 <= h -> 1 <= w -> eval_or_batch training n ->
    exists b, ResBlock_init i o false = Some b /\
      (i = o \/ i = 1 ->
       ResBlock_forward training b [n; i; h; w] = Some [n; o; h; w]) /\
      (o = 1 ->
       ResBlock_forward training b [n; i; h; w] = Some [n; i; h; w]) /\
      (i <> o -> i <> 1 -> o <> 1 ->
       forall x, ResBlock_forward training b x = None).
Proof.
  intros training i o n h w Hi Ho Hh Hw Hm.
  rewrite ResBlock_init_ok by lia.
  eexists. split; [reflexivity|].
  unfold ResBlock_forward. cbn [rb_seq rb_downsample].
  split; [|split].
  - intros Hr. rewrite resblock_seq_run by (assumption || lia).
    rewrite !strided_len_1. cbn [bind module_forward].
    destruct Hr as [->| ->].
    + now rewrite tensor_add_same.
    + now rewrite tensor_add_broadcast_right.
  - intros ->. rewrite resblock_seq_run by (assumption || lia).
    rewrite !strided_len_1. cbn [bind module_forward].
    now rewrite tensor_add_broadcast_left.
  - intros H1 H2 H3 x.
    destruct (module_forward training _ x) as [y|] eqn:E; [|reflexivity].
    apply resblock_main_shape in E as (n' & h' & w' & h'' & w'' & -> & ->).
    cbn [bind module_forward].
    rewrite tensor_add_channel_mismatch; [reflexivity | | | ]; congruence.
Qed.

Lemma ResBlock_identity_shortcut_witness :
  1 <= 1 /\ 1 <= 64 /\ 1 <= 32 /\ 1 <= 32 /\ eval_or_batch true 8 /\
  exists b, ResBlock_init 1 64 false = Some b /\
    (1 = 64 \/ 1 = 1 ->
     ResBlock_forward true b [8; 1; 32; 32] = Some [8; 64; 32; 32]) /\
    (64 = 1 ->
     ResBlock_forward true b [8; 1; 32; 32] = Some [8; 1; 32; 32]) /\
    (1 <> 64 -> 1 <> 1 -> 64 <> 1 ->
     forall x, ResBlock_forward true b x = None).
Proof.
  assert (Hm : eval_or_batch true 8) by (right; lia).
  repeat (split; [first [lia | exact Hm]|]).
  apply (ResBlock_identity_shortcut true 1 64 8 32 32);
    first [lia | exact Hm].
Defined.

(** [ResNextBlock]. *)

Lemma sequence_None_at {A : Type} (pre post : list (option A)) :
  sequence (pre ++ None :: post) = None.
Proof.
  induction pre as [|[a|] pre IH]; cbn [app sequence bind];
    [reflexivity | now rewrite IH | reflexivity].
Qed.

(** X6.  Constructing a [ResNextBlock] raises exactly when [cardinality]
    does not divide [inner_channel] (channel counts non-negative,
    [cardinality] positive): the grouped 3x3 convolution is the only layer
    whose constructor can refuse. *)
Theorem ResNextBlock_init_divisibility :
  forall (i inner o card : Z) (ds : bool) (stride : option Z),
    0 <= i -> 0 <= inner -> 0 <= o -> 0 < card ->
    (ResNextBlock_init i inner o card ds stride = None
     <-> inner mod card <> 0).
Proof.
  intros i inner o card ds stride Hi Hn Ho Hc. split.
  - intros E Hdiv.
    rewrite ResNextBlock_init_ok in E by assumption. discriminate E.
  - intros Hdiv. unfold ResNextBlock_init, nn_Sequential.
    assert (Eg : forall s, nn_Conv2d inner inner 3 s 1 card false = None).
    { intros s. unfold nn_Conv2d.
      apply Z.eqb_neq in Hdiv. rewrite Hdiv.
      now rewrite !andb_false_r. }
    rewrite Eg.
    match goal with
    | |- context [sequence (?a :: ?b :: ?c :: None :: ?r)] =>
        change (a :: b :: c :: None :: r) with ([a; b; c] ++ None :: r);
        rewrite (sequence_None_at [a; b; c] r)
    end.
    reflexivity.
Qed.

Lemma ResNextBlock_init_divisibility_witness :
  0 <= 64 /\ 0 <= 100 /\ 0 <= 256 /\ 0 < 32 /\
  (ResNextBlock_init 64 100 256 32 true None = None <-> 100 mod 32 <> 0).
Proof.
  repeat (split; [lia|]).
  apply (ResNextBlock_init_divisibility 64 100 256 32 true None); lia.
Defined.

(** X7.  In evaluation mode, or on a batch of at least two images, a
    [ResNextBlock] built with [is_downsample] works for every triple of
    positive channel counts (the inner one a multiple of [cardinality]),
    every stride [s >= 1] and every image size: the 3x3 convolution of the
    main path (padding 1) and the 1x1 convolution of the shortcut (no
    padding) both leave [(h-1)//s + 1] by [(w-1)//s + 1], and [forward]
    returns [n, out, (h-1)//s + 1, (w-1)//s + 1]. *)
Theorem ResNextBlock_projection_fits :
  forall (training : bool) (i inner o card : Z) (stride : option Z)
         (n h w : Z),
    1 <= i -> 1 <= inner -> 1 <= o -> 0 < card -> inner mod card = 0 ->
    0 < given_stride true stride -> 1 <= h -> 1 <= w ->
    eval_or_batch training n ->
    exists b, ResNextBlock_init i inner o card true stride = Some b /\
      let y := [n; o; strided_len h (given_stride true stride);
                strided_len w (given_stride true stride)] in
      block_main training (LResNextBlock b) [n; i; h; w] = Some y /\
      block_shortcut training (LResNextBlock b) [n; i; h; w] = Some y /\
      ResNextBlock_forward training b [n; i; h; w] = Some y.
Proof.
  intros training i inner o card stride n h w Hi Hn Ho Hc Hdiv Hs Hh Hw Hm.
  rewrite ResNextBlock_init_ok by (assumption || lia).
  eexists. split; [reflexivity|]. cbv zeta.
  unfold block_main, block_shortcut, projection_shortcut.
  cbn [rn_seq rn_downsample].
  rewrite resnext_seq_run, projection_run by (assumption || lia).
  repeat split. apply resnext_flagged_run; assumption || lia.
Qed.

Lemma ResNextBlock_projection_fits_witness :
  1 <= 64 /\ 1 <= 128 /\ 1 <= 256 /\ 0 < 32 /\ 128 mod 32 = 0 /\
  0 < given_stride true (Some 3) /\ 1 <= 32 /\ 1 <= 17 /\
  eval_or_batch false 1 /\
  exists b, ResNextBlock_init 64 128 256 32 true (Some 3) = Some b /\
    let y := [1; 256; strided_len 32 (given_stride true (Some 3));
              strided_len 17 (given_stride true (Some 3))] in
    block_main false (LResNextBlock b) [1; 64; 32; 17] = Some y /\
    block_shortcut false (LResNextBlock b) [1; 64; 32; 17] = Some y /\
    ResNextBlock_forward false b [1; 64; 32; 17] = Some y.
Proof.
  assert (Hm : eval_or_batch false 1) by (left; reflexivity).
  repeat (split; [first [lia | reflexivity | exact Hm]|]).
  apply (ResNextBlock_projection_fits false 64 128 256 32 (Some 3) 1 32 17);
    first [lia | reflexivity | exact Hm].
Defined.

(** [ConvNeXtblock]. *)

Lemma Conv2d_forward_inv_size (i o k s p : Z) (x y : shape) :
  Conv2d_forward i o k s p x = Some y ->
  exists n h w, x = [n; i; h; w] /\ k <= h + 2 * p /\ k <= w + 2 * p.
Proof.
  unfold Conv2d_forward.
  destruct x as [|n [|c [|h [|w [|? ?]]]]]; try discriminate.
  destruct (Z.eqb_spec c i) as [->|]; [|discriminate].
  destruct (0 <? i); [|discriminate].
  destruct (0 <? o); [|discriminate].
  destruct (0 <? s); [|discriminate].
  destruct (Z.leb_spec k (h + 2 * p)); [|discriminate].
  destruct (Z.leb_spec k (w + 2 * p)); [|discriminate].
  intros _. now exists n, h, w.
Qed.

(** X8.  A [ConvNeXtblock] is shape-preserving and accepts exactly the 4-D
    tensors with [channel] channels and a non-empty image: on those
    [forward] returns the input shape, on everything else it raises.
    Construction itself raises for [channel <= 0], since [channel] is the
    number of groups of the depth-wise convolution. *)
Theorem ConvNeXtblock_accepts :
  forall (training : bool) (channel : Z),
    1 <= channel ->
    (exists b, ConvNeXtblock_init channel = Some b /\
       (forall n h w, 1 <= h -> 1 <= w ->
          ConvNeXtblock_forward training b [n; channel; h; w]
          = Some [n; channel; h; w]) /\
       (forall x y, ConvNeXtblock_forward training b x = Some y ->
          y = x /\
          exists n h w, x = [n; channel; h; w] /\ 1 <= h /\ 1 <= w)) /\
    (forall c, c <= 0 -> ConvNeXtblock_init c = None).
Proof.
  intros training channel Hc. split.
  - unfold ConvNeXtblock_init.
    rewrite (nn_Conv2d_ok channel channel 7 1 3 channel true)
      by (try lia; apply Z.mod_same; lia).
    unfold nn_LayerNorm.
    replace (0 <=? channel) with true by (symmetry; apply Z.leb_le; lia).
    rewrite !nn_Conv2d_plain by lia. cbn [bind].
    eexists. split; [reflexivity|].
    assert (Hrun : forall n h w, 1 <= h -> 1 <= w ->
              ConvNeXtblock_forward training
                {| cn_depth_wise :=
                     Conv2d channel channel 7 1 3 channel true;
                   cn_norm := LayerNorm channel;
                   cn_point_wise1 :=
                     Conv2d channel (channel * 4) 1 1 0 1 true;
                   cn_gelu := GELU;
                   cn_point_wise2 :=
                     Conv2d (channel * 4) channel 1 1 0 1 true |}
                [n; channel; h; w] = Some [n; channel; h; w]).
    { intros n h w Hh Hw. apply convnext_block_run; assumption || lia. }
    split; [exact Hrun|].
    intros x y E.
    assert (Hx : exists n h w, x = [n; channel; h; w] /\ 1 <= h /\ 1 <= w).
    { unfold ConvNeXtblock_forward, ConvNeXtblock_main in E.
      cbn [cn_depth_wise module_forward] in E.
      apply bind_Some in E as [y1 [E _]].
      apply bind_Some in E as [x1 [E _]].
      apply Conv2d_forward_inv_size in E as (n & h & w & -> & Hh & Hw).
      exists n, h, w. repeat split; lia. }
    split; [|exact Hx].
    destruct Hx as (n & h & w & -> & Hh & Hw).
    rewrite Hrun in E by assumption. now injection E as <-.
  - intros c Hneg. unfold ConvNeXtblock_init, nn_Conv2d.
    replace (0 <? c) with false by (symmetry; apply Z.ltb_ge; lia).
    reflexivity.
Qed.

Lemma ConvNeXtblock_accepts_witness :
  1 <= 96 /\
  (exists b, ConvNeXtblock_init 96 = Some b /\
     (forall n h w, 1 <= h -> 1 <= w ->
        ConvNeXtblock_forward true b [n; 96; h; w] = Some [n; 96; h; w]) /\
     (forall x y, ConvNeXtblock_forward true b x = Some y ->
        y = x /\ exists n h w, x = [n; 96; h; w] /\ 1 <= h /\ 1 <= w)) /\
  (forall c, c <= 0 -> ConvNeXtblock_init c = None).
Proof.
  split; [lia|]. apply (ConvNeXtblock_accepts true 96). lia.
Defined.

(** * Widths and resolutions along the networks *)

(** X9.  In a run of any of the six networks on [N, 3, 32, 32], from one
    layer to the next the channel count never decreases and neither height
    nor width ever increases. *)
Theorem shapes_monotone_along_run :
  forall mk, In mk networks ->
  forall (training : bool) (class_num N : Z),
    1 <= class_num -> 1 <= N ->
    exists net, mk class_num = Some net /\
      let inputs := map snd (trace training (net_seq net) [N; 3; 32; 32]) in
      length inputs = length (net_seq net) /\
      pairwise Z.leb (map channels inputs) = true /\
      pairwise Z.geb (map height inputs) = true /\
      pairwise Z.geb (map width inputs) = true.
Proof.
  intros mk Hin. pattern mk. revert mk Hin.
  apply In_networks; intros training class_num N Hc HN; cbv zeta.
  all: net_trace.
  all: repeat split; reflexivity.
Qed.

Lemma shapes_monotone_along_run_witness :
  In PreActResNet networks /\ 1 <= 10 /\ 1 <= 3 /\
  exists net, PreActResNet 10 = Some net /\
    let inputs := map snd (trace true (net_seq net) [3; 3; 32; 32]) in
    length inputs = length (net_seq net) /\
    pairwise Z.leb (map channels inputs) = true /\
    pairwise Z.geb (map height inputs) = true /\
    pairwise Z.geb (map width inputs) = true.
Proof.
  split; [simpl; tauto|]. split; [lia|]. split; [lia|].
  apply (shapes_monotone_along_run PreActResNet); [simpl; tauto | lia | lia].
Defined.

(** * Stacks of freshly built [ConvNeXtblock]s *)

(** X10.  Freshly built [ConvNeXtblock]s of one width, applied one after
    the other to a float32 tensor without NaN, return a tensor equal to
    their input, provided every block hands finite activations to its
    zeroed projection: the stack is then the identity, whatever was drawn
    for the other parameters. *)
Theorem fresh_ConvNeXtblocks_identity :
  forall (erf32 : float32 -> float32) (channel : Z)
         (blocks : list (ConvNeXtblock * ConvNeXtblock_params float32))
         (x : tensor float32) (n h w : Z),
    Forall (freshly_built (H := float32_Num erf32) channel) blocks ->
    t_shape x = [n; channel; h; w] -> 1 <= h -> 1 <= w ->
    tensor_all notnan x = true ->
    hidden_finite_along erf32 blocks x = true ->
    exists y,
      ConvNeXtblocks_forward_value (H := float32_Num erf32) blocks x
      = Some y /\
      torch_equal y x = true.
Proof.
  intros erf32 channel blocks x n h w Hall Hx Hh Hw.
  revert x Hx. induction Hall as [|b r Hb Hr IH]; intros x Hx Hnan Hfin.
  - exists x. split; [reflexivity|].
    apply torch_equal_spec. split; [reflexivity|].
    intros n0 c0 h0 w0 Hr. apply SFeqb_refl.
    unfold tensor_all in Hnan. rewrite all_indices_spec in Hnan.
    apply Hnan in Hr. unfold notnan in Hr.
    now destruct (isnan (t_at x n0 c0 h0 w0)).
  - cbn [ConvNeXtblocks_forward_value].
    destruct (fresh_block_forward erf32 channel b x n h w Hb Hx Hh Hw)
      as (hid & y & Ehid & Ey & Sy & Hy).
    cbn [hidden_finite_along] in Hfin. rewrite Ehid, Ey in Hfin.
    apply andb_true_iff in Hfin as [Hhid Hrest].
    specialize (Hy Hhid Hnan).
    rewrite Ey. cbn [bind].
    destruct (IH y) as (z & Ez & Hz).
    + congruence.
    + now apply torch_equal_notnan with x.
    + exact Hrest.
    + exists z. split; [exact Ez|]. now apply torch_equal_trans with y.
Qed.

Lemma fresh_ConvNeXtblocks_identity_witness :
  Forall (freshly_built (H := float32_Num erf32) 2) sample_stack /\
  length sample_stack = 2%nat /\
  t_shape sample_pixel = [1; 2; 1; 1] /\ 1 <= 1 /\
  tensor_all notnan sample_pixel = true /\
  hidden_finite_along erf32 sample_stack sample_pixel = true /\
  exists y,
    ConvNeXtblocks_forward_value (H := float32_Num erf32) sample_stack
      sample_pixel = Some y /\
    torch_equal y sample_pixel = true.
Proof.
  assert (Hall : Forall (freshly_built (H := float32_Num erf32) 2)
                   sample_stack).
  { repeat constructor.
    - exists (fun o c i j => f32_quot (0 + 2 * o + i - j) 64),
        (fun o c _ _ => f32_quot (o - 3 * c + 0) 8),
        (fun o c _ _ => f32_quot (7 * o + c) 32),
        (fun o => f32_quot (o + 1) 16), (fun o => f32_quot (0 - o) 16),
        (fun o => f32_quot (5 + o) 16). reflexivity.
    - exists (fun o c i j => f32_quot (1 + 2 * o + i - j) 64),
        (fun o c _ _ => f32_quot (o - 3 * c + 1) 8),
        (fun o c _ _ => f32_quot (7 * o + c) 32),
        (fun o => f32_quot (o + 1) 16), (fun o => f32_quot (1 - o) 16),
        (fun o => f32_quot (5 + o) 16). reflexivity. }
  assert (Hn : tensor_all notnan sample_pixel = true)
    by (vm_compute; reflexivity).
  assert (Hf : hidden_finite_along erf32 sample_stack sample_pixel = true)
    by (vm_compute; reflexivity).
  split; [exact Hall|]. split; [reflexivity|]. split; [reflexivity|].
  split; [lia|]. split; [exact Hn|]. split; [exact Hf|].
  apply (fresh_ConvNeXtblocks_identity erf32 2 sample_stack
           sample_pixel 1 1 1 Hall);
    [reflexivity | lia | lia | exact Hn | exact Hf].
Defined.
